(** * Size-budgeted XML generator: a shallow embedding of
      [scripts/xml_generator.py] and the properties of its specification.

    Python integers are unbounded, so they are [Z]; [//] on a positive
    divisor is [Z.div].  Strings are [string] (one [ascii] per character).
    The lxml tree that the walker builds is passed and returned explicitly;
    a raised exception is an [outcome] next to the state reached so far. *)

From Stdlib Require Import ZArith List String Ascii Bool Lia.
From Stdlib Require Import DecimalString DecimalPos DecimalZ.
Import ListNotations.
Open Scope string_scope.
Open Scope Z_scope.

(** ** Exceptions and outcomes *)

(** The exceptions the generator can raise, named after the place that
    raises them. *)
Inductive exn : Type :=
| RootNotFound  (* ValueError("Could not determine root element from schema") *)
| EmptyRange    (* ValueError of random.randint(a, b) when b < a *)
| EmptySequence (* IndexError of random.choice on an empty sequence *)
| UnpackError   (* ValueError of [prefix, name = name.split(':')] on other than two parts *)
| InvalidTag    (* ValueError of lxml on a tag name it refuses *)
| NoneName.     (* TypeError of [':' in name] / Element(None) when 'name' is absent *)

(** How a call ends: with a value or with an exception. *)
Inductive outcome (A : Type) : Type :=
| Return (a : A)
| Raise (e : exn).
Arguments Return {A} a.
Arguments Raise {A} e.

(** ** The random source *)

(** The injected random source: the raw draws it will deliver, in order. *)
Definition Random : Type := nat -> Z.

Definition draw (rng : Random) : Z * Random :=
  (rng O, fun n => rng (S n)).

(** A small state-and-exception monad for the code that only consumes
    randomness. *)
Definition Gen (A : Type) : Type := Random -> outcome A * Random.

Definition ret {A} (a : A) : Gen A := fun rng => (Return a, rng).

Definition bind {A B} (m : Gen A) (k : A -> Gen B) : Gen B :=
  fun rng =>
    match m rng with
    | (Return a, rng') => k a rng'
    | (Raise e, rng') => (Raise e, rng')
    end.

Notation "x <- m ;; k" := (bind m (fun x => k))
  (at level 61, m at next level, right associativity).

(** [random.randint(a, b)]: an integer of [a..b], ValueError on an empty
    range (raised before anything is drawn). *)
Definition randint (a b : Z) : Gen Z :=
  fun rng =>
    if b <? a then (Raise EmptyRange, rng)
    else let '(x, rng') := draw rng in (Return (a + x mod (b - a + 1)), rng').

(** [random.choice(seq)]. *)
Definition choice {A} (seq : list A) : Gen A :=
  fun rng =>
    match seq with
    | [] => (Raise EmptySequence, rng)
    | d :: _ =>
        let '(x, rng') := draw rng in
        (Return (nth (Z.to_nat (x mod Z.of_nat (List.length seq))) seq d), rng')
    end.

(** ** Strings *)

Definition len (s : string) : Z := Z.of_nat (String.length s).

(** [c in s] for a one-character [c]. *)
Fixpoint contains (c : ascii) (s : string) : bool :=
  match s with
  | EmptyString => false
  | String a s' => Ascii.eqb a c || contains c s'
  end.

(** [s.split(c)] for a one-character separator: one part more than there
    are separators. *)
Fixpoint split (c : ascii) (s : string) : list string :=
  match s with
  | EmptyString => [EmptyString]
  | String a s' =>
      if Ascii.eqb a c then EmptyString :: split c s'
      else match split c s' with
           | [] => [String a EmptyString]
           | part :: parts => String a part :: parts
           end
  end.

Definition is_upper (a : ascii) : bool :=
  let n := nat_of_ascii a in (65 <=? n)%nat && (n <=? 90)%nat.

(** [s.lower()] on ASCII. *)
Fixpoint lower (s : string) : string :=
  match s with
  | EmptyString => EmptyString
  | String a s' =>
      String (if is_upper a then ascii_of_nat (nat_of_ascii a + 32) else a)
             (lower s')
  end.

Fixpoint zeros (n : nat) : string :=
  match n with
  | O => EmptyString
  | S n' => String "0" (zeros n')
  end.

Definition zfill (width : nat) (s : string) : string :=
  zeros (width - String.length s) ++ s.

(** The decimal digits of a non-negative integer. *)
Definition digits (n : Z) : string :=
  NilZero.string_of_uint (N.to_uint (Z.to_N n)).

(** [str(n)]. *)
Definition str (n : Z) : string :=
  if n <? 0 then String "-" (digits (- n)) else digits n.

(** The format specification [{n:0<width>d}]: zero padding after the sign. *)
Definition format_0d (width : nat) (n : Z) : string :=
  if n <? 0 then String "-" (zfill (width - 1) (digits (- n)))
  else zfill width (digits n).

(** ** Class constants *)

Definition AVERAGE_ELEMENT_OVERHEAD : Z := 50.
Definition DEFAULT_STRING_LENGTH : Z := 20.
Definition DEFAULT_MIN_CHILDREN : Z := 1.
Definition DEFAULT_MAX_CHILDREN : Z := 5.

(** ** Leaf value generators *)

(** [string.ascii_letters + string.digits + ' ']. *)
Definition chars : list ascii :=
  list_ascii_of_string
    "abcdefghijklmnopqrstuvwxyzABCDEFGHIJKLMNOPQRSTUVWXYZ0123456789 ".

(** [''.join(random.choice(chars) for _ in range(n))]. *)
Fixpoint join_choices (n : nat) : Gen string :=
  match n with
  | O => ret EmptyString
  | S n' =>
      c <- choice chars ;;
      s <- join_choices n' ;;
      ret (String c s)
  end.

Definition _generate_string (length : option Z) : Gen string :=
  let length := match length with
                | None => DEFAULT_STRING_LENGTH
                | Some l => l
                end in
  join_choices (Z.to_nat length).

Definition _generate_integer : Gen string :=
  n <- randint (-1000000) 1000000 ;;
  ret (str n).

(** [f"{random.uniform(-1000000, 1000000):.2f}"].  Floating point is outside
    the model: the value is drawn already rounded to hundredths. *)
Definition _generate_decimal : Gen string :=
  h <- randint (-100000000) 100000000 ;;
  let a := Z.abs h in
  ret ((if h <? 0 then "-" else "")
         ++ digits (a / 100) ++ "." ++ format_0d 2 (a mod 100)).

Definition _generate_date : Gen string :=
  year <- randint 1900 2100 ;;
  month <- randint 1 12 ;;
  day <- randint 1 28 ;;
  ret (format_0d 4 year ++ "-" ++ format_0d 2 month ++ "-" ++ format_0d 2 day).

Definition _generate_datetime : Gen string :=
  date <- _generate_date ;;
  hour <- randint 0 23 ;;
  minute <- randint 0 59 ;;
  second <- randint 0 59 ;;
  ret (date ++ "T" ++ format_0d 2 hour ++ ":" ++ format_0d 2 minute
            ++ ":" ++ format_0d 2 second ++ "Z").

Definition _generate_boolean : Gen string :=
  choice ["true"; "false"].

Definition _generate_uri : Gen string :=
  domain <- _generate_string (Some 10) ;;
  path <- _generate_string (Some 15) ;;
  ret ("http://" ++ lower domain ++ ".com/" ++ lower path).

(** The dictionary of [_create_type_generators]. *)
Definition type_generators : list (string * Gen string) :=
  [ ("string", _generate_string None);
    ("integer", _generate_integer);
    ("decimal", _generate_decimal);
    ("date", _generate_date);
    ("dateTime", _generate_datetime);
    ("boolean", _generate_boolean);
    ("anyURI", _generate_uri) ].

(** [d.get(key, default)]. *)
Fixpoint dict_get {V} (d : list (string * V)) (key : string) (default : V) : V :=
  match d with
  | [] => default
  | (k, v) :: d' => if String.eqb k key then v else dict_get d' key default
  end.

(** ** lxml elements *)

(** An lxml element: the nodes of the parsed schema and of the generated
    document alike.  [children] are the element's child nodes in document
    order (lxml counts comments and processing instructions among them). *)
#[warnings="-register-all"]
Inductive Element : Type :=
  mkElement { tag : string;
              attrib : list (string * string);
              text : option string;
              children : list Element }.

(** [element.get(key)]. *)
Fixpoint lookup (d : list (string * string)) (key : string) : option string :=
  match d with
  | [] => None
  | (k, v) :: d' => if String.eqb k key then Some v else lookup d' key
  end.

Definition get (element : Element) (key : string) : option string :=
  lookup (attrib element) key.

(** Truth value of a string that may be None: None and '' are false. *)
Definition truthy (s : option string) : bool :=
  match s with
  | None | Some EmptyString => false
  | Some _ => true
  end.

(** Truth value of an lxml element ([_Element.__bool__]): it has children. *)
Definition element_bool (element : Element) : bool :=
  match children element with
  | [] => false
  | _ :: _ => true
  end.

Definition append_child (parent child : Element) : Element :=
  mkElement (tag parent) (attrib parent) (text parent) (children parent ++ [child]).

Definition set_text (element : Element) (content : string) : Element :=
  mkElement (tag element) (attrib element) (Some content) (children element).

(** The elements of a tree in document order. *)
Fixpoint iter (element : Element) : list Element :=
  match element with
  | mkElement _ _ _ cs => element :: flat_map iter cs
  end.

(** The number of levels of a tree, and of a forest. *)
Fixpoint height (element : Element) : nat :=
  match element with
  | mkElement _ _ _ cs => S (fold_right (fun c h => Nat.max (height c) h) O cs)
  end.

Definition forest_height (cs : list Element) : nat :=
  fold_right (fun c h => Nat.max (height c) h) O cs.

(** ** Schema access *)

Definition xs_element : string := "{http://www.w3.org/2001/XMLSchema}element".

(** [schema_doc.xpath("//xs:element[@name]")]: every xs:element of the
    document that carries a name attribute, in document order. *)
Definition xpath_named_elements (schema_doc : Element) : list Element :=
  filter (fun e => String.eqb (tag e) xs_element
                   && match get e "name" with Some _ => true | None => false end)
         (iter schema_doc).

Definition _find_root_element (schema_doc : Element) : option Element :=
  match xpath_named_elements schema_doc with
  | e :: _ => Some e
  | [] => None
  end.

(** The generator object.  The compiled schema and the namespace map only
    serve validation and serialisation and are left out. *)
Record XMLGenerator : Type :=
  mkXMLGenerator { schema_doc : Element; root_element : Element }.

(** [XMLGenerator.__init__] from the parsed schema document.
    [if not self.root_element] is true for None and for an element whose
    truth value is false. *)
Definition __init__ (schema_doc : Element) : outcome XMLGenerator :=
  match _find_root_element schema_doc with
  | None => Raise RootNotFound
  | Some e =>
      if negb (element_bool e) then Raise RootNotFound
      else Return (mkXMLGenerator schema_doc e)
  end.

(** [math.ceil(target_size_bytes / AVERAGE_ELEMENT_OVERHEAD)] on integers. *)
Definition _calculate_target_elements (target_size_bytes : Z) : Z :=
  (target_size_bytes + (AVERAGE_ELEMENT_OVERHEAD - 1)) / AVERAGE_ELEMENT_OVERHEAD.

(** ** Leaf content *)

Definition base_type_of (type_name : string) : string :=
  last (split ":" type_name) EmptyString.

Definition _generate_element_content (element : Element) (depth : Z) : Gen string :=
  let type_name := match get element "type" with
                   | Some t => t
                   | None => "string"
                   end in
  let base_type := base_type_of type_name in
  dict_get type_generators base_type (_generate_string None).

(** ** The walker *)

(** [if ':' in name: prefix, name = name.split(':')]. *)
Definition strip_prefix (name : string) : outcome string :=
  if contains ":" name then
    match split ":" name with
    | [_; name'] => Return name'
    | _ => Raise UnpackError
    end
  else Return name.

(** The budget expression of the loop over the children. *)
Definition child_budget (remaining_size size_used children_count : Z) : Z :=
  (remaining_size - size_used) / children_count.

Section ChildrenLoop.
(** The loop [for _ in range(children_count)] of [_create_element], over
    whatever state [X] the recursive call threads.  [None] is a call that
    ran out of fuel. *)
Context {X : Type}.
Variable child : X -> Z -> option (outcome Z * X).
Variables remaining_size children_count : Z.

Fixpoint children_loop (iters : nat) (size_used : Z) (x : X)
  : option (outcome Z * X) :=
  match iters with
  | O => Some (Return size_used, x)
  | S iters' =>
      match child x (child_budget remaining_size size_used children_count) with
      | None => None
      | Some (Return child_size, x') =>
          children_loop iters' (size_used + child_size) x'
      | Some (Raise e, x') => Some (Raise e, x')
      end
  end.
End ChildrenLoop.

(** What the walker works on: the node it appends to, and the random
    source. *)
Definition State : Type := (Element * Random)%type.

(** One invocation of the walker, as seen from outside: its [depth] and
    [remaining_size] arguments, how it ended, and the invocations it made
    itself, in order.  The tree of calls is not data of the program; it is
    what the statements about "the budget handed to a child" talk about. *)
#[warnings="-register-all"]
Inductive Call : Type :=
  mkCall { call_depth : Z;
           call_budget : Z;
           call_outcome : outcome Z;
           subcalls : list Call }.

Section Walker.
(** lxml refuses to create an element whose tag is not a valid name
    (ValueError).  The check is lxml's, not this repository's. *)
Variable valid_tag : string -> bool.

(** [_create_element], indexed by the number of nested calls it may still
    make; [None] when that number runs out.  [SubElement] appends the new
    node to [parent] at once and the code then fills the node in place;
    here the node is filled first and appended when the call ends, also
    when it ends with an exception. *)
Fixpoint walk (fuel : nat) (element_def parent : Element)
         (remaining_size depth : Z) (rng : Random) {struct fuel}
  : option (outcome Z * State) :=
  if (remaining_size <=? 0) || (depth >? 100) then
    Some (Return 0, (parent, rng))
  else
    match fuel with
    | O => None
    | S fuel' =>
        match get element_def "name" with
        | None => Some (Raise NoneName, (parent, rng))
        | Some name =>
            match strip_prefix name with
            | Raise e => Some (Raise e, (parent, rng))
            | Return name =>
                if negb (valid_tag name) then
                  Some (Raise InvalidTag, (parent, rng))
                else
                  let element := mkElement name [] None [] in
                  if truthy (get element_def "type") then
                    match _generate_element_content element_def depth rng with
                    | (Raise e, rng') =>
                        Some (Raise e, (append_child parent element, rng'))
                    | (Return content, rng') =>
                        Some (Return (len content + len name * 2 + 5),
                              (append_child parent (set_text element content), rng'))
                    end
                  else
                    let size_used := len name * 2 + 5 in
                    match randint DEFAULT_MIN_CHILDREN
                                  (Z.min DEFAULT_MAX_CHILDREN
                                         (remaining_size / AVERAGE_ELEMENT_OVERHEAD))
                                  rng with
                    | (Raise e, rng') =>
                        Some (Raise e, (append_child parent element, rng'))
                    | (Return children_count, rng') =>
                        match children_loop
                                (fun '(el, r) budget =>
                                   walk fuel' element_def el budget (depth + 1) r)
                                remaining_size children_count
                                (Z.to_nat children_count) size_used
                                (element, rng') with
                        | None => None
                        | Some (o, (element', rng'')) =>
                            Some (o, (append_child parent element', rng''))
                        end
                    end
            end
        end
    end.

(** The same walk, giving its tree of calls as well. *)
Fixpoint walk_calls (fuel : nat) (element_def parent : Element)
         (remaining_size depth : Z) (rng : Random) {struct fuel}
  : option (outcome Z * State * Call) :=
  let call o subs := mkCall depth remaining_size o subs in
  if (remaining_size <=? 0) || (depth >? 100) then
    Some (Return 0, (parent, rng), call (Return 0) [])
  else
    match fuel with
    | O => None
    | S fuel' =>
        match get element_def "name" with
        | None => Some (Raise NoneName, (parent, rng), call (Raise NoneName) [])
        | Some name =>
            match strip_prefix name with
            | Raise e => Some (Raise e, (parent, rng), call (Raise e) [])
            | Return name =>
                if negb (valid_tag name) then
                  Some (Raise InvalidTag, (parent, rng), call (Raise InvalidTag) [])
                else
                  let element := mkElement name [] None [] in
                  if truthy (get element_def "type") then
                    match _generate_element_content element_def depth rng with
                    | (Raise e, rng') =>
                        Some (Raise e, (append_child parent element, rng'),
                              call (Raise e) [])
                    | (Return content, rng') =>
                        let size_used := len content + len name * 2 + 5 in
                        Some (Return size_used,
                              (append_child parent (set_text element content), rng'),
                              call (Return size_used) [])
                    end
                  else
                    let size_used := len name * 2 + 5 in
                    match randint DEFAULT_MIN_CHILDREN
                                  (Z.min DEFAULT_MAX_CHILDREN
                                         (remaining_size / AVERAGE_ELEMENT_OVERHEAD))
                                  rng with
                    | (Raise e, rng') =>
                        Some (Raise e, (append_child parent element, rng'),
                              call (Raise e) [])
                    | (Return children_count, rng') =>
                        match children_loop
                                (fun '(el, r, log) budget =>
                                   match walk_calls fuel' element_def el budget
                                                    (depth + 1) r with
                                   | None => None
                                   | Some (o, (el', r'), c) =>
                                       Some (o, (el', r', (log ++ [c])%list))
                                   end)
                                remaining_size children_count
                                (Z.to_nat children_count) size_used
                                (element, rng', []) with
                        | None => None
                        | Some (o, (element', rng'', log)) =>
                            Some (o, (append_child parent element', rng''),
                                  call o log)
                        end
                    end
            end
        end
    end.

(** Fuel for a walk entered at [depth]: one nested call per level up to
    the ceiling of 100. *)
Definition fuel_for (depth : Z) : nat := Z.to_nat (101 - depth).

Definition _create_element (element_def parent : Element)
           (remaining_size depth : Z) (rng : Random)
  : option (outcome Z * State) :=
  walk (fuel_for depth) element_def parent remaining_size depth rng.

Definition _create_element_calls (element_def parent : Element)
           (remaining_size depth : Z) (rng : Random)
  : option (outcome Z * State * Call) :=
  walk_calls (fuel_for depth) element_def parent remaining_size depth rng.

(** [generate], up to the document it is about to write: the root node is
    made from the unstripped name, then the walker is run on the root
    element definition with that node as parent.  The element count of
    [_calculate_target_elements] is computed and dropped by the code. *)
Definition generate (self : XMLGenerator) (target_size_bytes : Z)
           (rng : Random) : option (outcome Element * Random) :=
  match get (root_element self) "name" with
  | None => Some (Raise NoneName, rng)
  | Some name =>
      if negb (valid_tag name) then Some (Raise InvalidTag, rng)
      else
        let root := mkElement name [] None [] in
        match _create_element (root_element self) root target_size_bytes 0 rng with
        | None => None
        | Some (Return _, (root', rng')) => Some (Return root', rng')
        | Some (Raise e, (_, rng')) => Some (Raise e, rng')
        end
  end.
End Walker.

(** ** Vocabulary of the statements *)

(** How many times a character occurs in a string. *)
Fixpoint count (c : ascii) (s : string) : nat :=
  match s with
  | EmptyString => O
  | String a s' => ((if Ascii.eqb a c then 1 else 0) + count c s')%nat
  end.

Definition digit_value (a : ascii) : option Z :=
  let n := nat_of_ascii a in
  if (48 <=? n)%nat && (n <=? 57)%nat then Some (Z.of_nat (n - 48)) else None.

Definition number2 (a b : ascii) : option Z :=
  match digit_value a, digit_value b with
  | Some x, Some y => Some (10 * x + y)
  | _, _ => None
  end.

(** Reads a string of the form YYYY-MM-DD: four digits, a dash, two digits,
    a dash, two digits, and nothing else. *)
Definition parse_date (s : string) : option (Z * Z * Z) :=
  match list_ascii_of_string s with
  | [y1; y2; y3; y4; s1; m1; m2; s2; d1; d2] =>
      if Ascii.eqb s1 "-" && Ascii.eqb s2 "-" then
        match number2 y1 y2, number2 y3 y4, number2 m1 m2, number2 d1 d2 with
        | Some yh, Some yl, Some m, Some d => Some (100 * yh + yl, m, d)
        | _, _, _, _ => None
        end
      else None
  | _ => None
  end.

(** The date string of a year, a month and a day, as [_generate_date]
    formats it, and whether it reads back as the same three numbers. *)
Definition date_of (year month day : Z) : string :=
  format_0d 4 year ++ "-" ++ format_0d 2 month ++ "-" ++ format_0d 2 day.

Definition date_reads_back (year month day : Z) : bool :=
  match parse_date (date_of year month day) with
  | Some (y, m, d) => (y =? year) && (m =? month) && (d =? day)
  | None => false
  end.

(** The type names that [type_generators] registers. *)
Definition registered_types : list string := map fst type_generators.

(** The integers [a, a+1, ..., a+n-1]. *)
Definition zrange (a : Z) (n : nat) : list Z :=
  map (fun k => a + Z.of_nat k) (seq 0 n).

(** The budgets of successive child calls follow [budget_at]: the call
    number [i] is handed [budget_at size_used i], where [size_used] is the
    parent's own size plus what the earlier children returned.  A child that
    raises ends the loop. *)
Fixpoint budgets_follow (budget_at : Z -> Z -> Z) (i size_used : Z)
         (calls : list Call) : Prop :=
  match calls with
  | [] => True
  | c :: cs =>
      call_budget c = budget_at size_used i
      /\ match call_outcome c with
         | Return child_size => budgets_follow budget_at (i + 1) (size_used + child_size) cs
         | Raise _ => cs = []
         end
  end.

(** The split the code makes: the total number of children divides. *)
Definition code_budget (remaining_size children_count : Z) : Z -> Z -> Z :=
  fun size_used _ => child_budget remaining_size size_used children_count.

(** The split as the specification words it: the number of children not yet
    processed divides. *)
Definition spec_budget (remaining_size children_count : Z) : Z -> Z -> Z :=
  fun size_used i => (remaining_size - size_used) / (children_count - i).

(** What a list of calls returned in total. *)
Definition returned_total (calls : list Call) : Z :=
  fold_right (fun c acc => match call_outcome c with
                           | Return child_size => child_size + acc
                           | Raise _ => acc
                           end) 0 calls.

(** Every call of a tree of calls. *)
Fixpoint all_calls (c : Call) : list Call :=
  match c with
  | mkCall _ _ _ subs => c :: flat_map all_calls subs
  end.

(** A call that stopped at once: it returned 0 and called nothing. *)
Definition stopped (c : Call) : Prop :=
  call_outcome c = Return 0 /\ subcalls c = [].

(** ** Sample inputs *)

Definition xs (local : string) : string :=
  "{http://www.w3.org/2001/XMLSchema}" ++ local.

(** A tag check that accepts the non-empty names without a colon. *)
Definition plain_tag (s : string) : bool :=
  negb (contains ":" s) && negb (String.eqb s "").

Definition element_def_of (name : string) (type : option string)
           (cs : list Element) : Element :=
  mkElement xs_element
            (("name", name) :: match type with
                               | Some t => [("type", t)]
                               | None => []
                               end)
            None cs.

(** <xs:element name="Root"><xs:complexType/></xs:element> *)
Definition complex_root : Element :=
  element_def_of "Root" None [mkElement (xs "complexType") [] None []].

Definition complex_schema : Element :=
  mkElement (xs "schema") [] None [complex_root].

(** <xs:element name="Root" type="xs:string"/> *)
Definition typed_root : Element :=
  element_def_of "Root" (Some "xs:string") [].

Definition typed_schema : Element :=
  mkElement (xs "schema") [] None [typed_root].

(** A typed root that has a child node:
    <xs:element name="Root" type="xs:string"><xs:annotation/></xs:element> *)
Definition annotated_root : Element :=
  element_def_of "Root" (Some "xs:string") [mkElement (xs "annotation") [] None []].

Definition annotated_schema : Element :=
  mkElement (xs "schema") [] None [annotated_root].

(** A schema whose first named element is local to a complex type that
    precedes the only top-level element. *)
Definition nested_first_schema : Element :=
  mkElement (xs "schema") [] None
    [ mkElement (xs "complexType") [("name", "T")] None
        [ mkElement (xs "sequence") [] None
            [ element_def_of "inner" None [mkElement (xs "complexType") [] None []] ] ];
      element_def_of "Root" (Some "T") [] ].

(** A schema without any element definition. *)
Definition empty_schema : Element := mkElement (xs "schema") [] None [].

Definition name30 : string := "abcdefghijklmnopqrstuvwxyzabcd".
Definition name47 : string := "abcdefghijklmnopqrstuvwxyzabcdefghijklmnopqrstu".

(** The random source that always draws [x], and one that draws [x] first. *)
Definition constant (x : Z) : Random := fun _ => x.
Definition first (x : Z) (rest : Random) : Random :=
  fun n => match n with O => x | S n' => rest n' end.

Definition empty_node (name : string) : Element := mkElement name [] None [].

(** ** Vocabulary of the further properties *)

(** Reads a decimal integer with an optional minus sign. *)
Definition parse_int (s : string) : option Z :=
  option_map Z.of_int (NilZero.int_of_string s).

(** Reads a string of the form YYYY-MM-DDTHH:MM:SSZ. *)
Definition parse_datetime (s : string) : option (Z * Z * Z * Z * Z * Z) :=
  match list_ascii_of_string s with
  | [y1; y2; y3; y4; a; o1; o2; b; d1; d2; t; h1; h2; c1; m1; m2; c2; s1; s2; z] =>
      if Ascii.eqb t "T" && Ascii.eqb c1 ":" && Ascii.eqb c2 ":" && Ascii.eqb z "Z" then
        match parse_date (string_of_list_ascii [y1; y2; y3; y4; a; o1; o2; b; d1; d2]),
              number2 h1 h2, number2 m1 m2, number2 s1 s2 with
        | Some (year, month, day), Some hour, Some minute, Some second =>
            Some (year, month, day, hour, minute, second)
        | _, _, _, _ => None
        end
      else None
  | _ => None
  end.

(** The characters of [chars] after [lower]: no capital letter. *)
Definition lower_chars : list ascii :=
  list_ascii_of_string "abcdefghijklmnopqrstuvwxyz0123456789 ".

(** The size the walker accounts for a subtree: for each node twice the
    length of its name, 5, and the length of its text. *)
Fixpoint accounted_size (element : Element) : Z :=
  match element with
  | mkElement name _ content cs =>
      len name * 2 + 5
      + match content with Some c => len c | None => 0 end
      + fold_right (fun c acc => accounted_size c + acc) 0 cs
  end.

(** Whether [{h:02d}] is two digits that read back as [h]. *)
Definition two_digits_read_back (h : Z) : bool :=
  match format_0d 2 h with
  | String a (String b EmptyString) =>
      match number2 a b with
      | Some x => x =? h
      | None => false
      end
  | _ => false
  end.

(** A generator that returns for every random source. *)
Definition never_raises {A} (g : Gen A) : Prop :=
  forall rng, exists a rng', g rng = (Return a, rng').

(** No node of the subtree has more than [DEFAULT_MAX_CHILDREN] children. *)
Definition fanout_bounded (element : Element) : Prop :=
  Forall (fun n => Z.of_nat (List.length (children n)) <= DEFAULT_MAX_CHILDREN)
         (iter element).

(** The calls a call makes run one level deeper on a budget at least 5
    smaller. *)
Definition descends (c : Call) : Prop :=
  Forall (fun sub => call_budget sub <= call_budget c - 5
                     /\ call_depth sub = call_depth c + 1)
         (subcalls c).

(** A call makes no more calls than [min(DEFAULT_MAX_CHILDREN,
    budget // AVERAGE_ELEMENT_OVERHEAD)], and none when that is below 1. *)
Definition branching_bounded (c : Call) : Prop :=
  Z.of_nat (List.length (subcalls c))
  <= Z.max 0 (Z.min DEFAULT_MAX_CHILDREN (call_budget c / AVERAGE_ELEMENT_OVERHEAD)).

(** * The flat-record generator: [scripts/generate_test_file.py]

    The configuration is taken as parsed: reading the Lua file with regular
    expressions is not modelled.  Each key that [_parse_lua_config] sets
    only when it finds it is an option; 'patterns' is always set. *)
Record Config : Type :=
  mkConfig { delimiter : option string;
             max_record_length : option Z;
             has_header : option bool;
             patterns : list string }.

(** What ends a call of the record generator: a missing key of the
    configuration, or an exception of a field generator. *)
Inductive failure : Type :=
| KeyError (key : string)
| Raised (e : exn).

Inductive result (A : Type) : Type :=
| Done (a : A)
| Failed (f : failure).
Arguments Done {A} a.
Arguments Failed {A} f.

Definition ascii_lowercase : list ascii :=
  list_ascii_of_string "abcdefghijklmnopqrstuvwxyz".
Definition ascii_uppercase : list ascii :=
  list_ascii_of_string "ABCDEFGHIJKLMNOPQRSTUVWXYZ".
Definition digit_chars : list ascii := list_ascii_of_string "0123456789".
Definition letters_and_space : list ascii :=
  list_ascii_of_string "abcdefghijklmnopqrstuvwxyzABCDEFGHIJKLMNOPQRSTUVWXYZ ".

(** The double quote character, as a string. *)
Definition dquote : string := String (ascii_of_nat 34) EmptyString.

(** [random.choices(population, k=k)]: [k] independent choices. *)
Fixpoint choices {A} (population : list A) (k : nat) : Gen (list A) :=
  match k with
  | O => ret []
  | S k' =>
      x <- choice population ;;
      xs <- choices population k' ;;
      ret (x :: xs)
  end.

(** [random.random()]: the float j / 2^53 with 0 <= j < 2^53, given by its
    numerator j. *)
Definition random_53 : Gen Z :=
  fun rng => let '(x, rng') := draw rng in (Return (x mod 2 ^ 53), rng').

(** [j / 2^53 < 0.3]: the float 0.3 is 5404319552844595 / 2^54. *)
Definition below_0_3 (j : Z) : bool := 2 * j <? 5404319552844595.

Definition first_names : list string :=
  ["John"; "Jane"; "Robert"; "Mary"; "William"; "Elizabeth"; "James"; "Sarah"].
Definition last_names : list string :=
  ["Smith"; "Johnson"; "Williams"; "Brown"; "Jones"; "Garcia"; "Miller"; "Davis"].

Definition _generate_name : Gen string :=
  j <- random_53 ;;
  if below_0_3 j then
    last_name <- choice last_names ;;
    first_name <- choice first_names ;;
    ret (dquote ++ last_name ++ ", " ++ first_name ++ dquote)
  else
    first_name <- choice first_names ;;
    last_name <- choice last_names ;;
    ret (first_name ++ " " ++ last_name).

Definition domains : list string :=
  ["example.com"; "test.com"; "company.com"; "mail.com"].

Definition _generate_email : Gen string :=
  k <- randint 5 10 ;;
  name <- choices ascii_lowercase (Z.to_nat k) ;;
  domain <- choice domains ;;
  ret (string_of_list_ascii name ++ "@" ++ domain).

Definition _generate_product_code : Gen string :=
  letters <- choices ascii_uppercase 3 ;;
  numbers <- choices digit_chars 3 ;;
  ret (string_of_list_ascii letters ++ string_of_list_ascii numbers).

Definition _generate_text (max_length : Z) : Gen string :=
  length <- randint 5 max_length ;;
  text <- choices letters_and_space (Z.to_nat length) ;;
  ret (string_of_list_ascii text).

(** [str(random.randint(18, 80))]. *)
Definition generate_age : Gen string :=
  n <- randint 18 80 ;;
  ret (str n).

(** [f"{random.uniform(10, 1000):.2f}"].  Floating point is outside the
    model: the value is drawn already rounded to hundredths. *)
Definition generate_price : Gen string :=
  h <- randint 1000 100000 ;;
  ret (digits (h / 100) ++ "." ++ format_0d 2 (h mod 100)).

(** [re.search(r'\^[...]+\$', s)] for a character class without '$':
    somewhere in [s] a '^', then one or more characters of the class, then
    a '$'.  [class_run] reads the characters after the '^'. *)
Fixpoint class_run (cls : ascii -> bool) (s : string) (seen : bool) : bool :=
  match s with
  | EmptyString => false
  | String a s' => if cls a then class_run cls s' true else seen && Ascii.eqb a "$"
  end.

Fixpoint search_anchored (cls : ascii -> bool) (s : string) : bool :=
  match s with
  | EmptyString => false
  | String a s' => (Ascii.eqb a "^" && class_run cls s' false) || search_anchored cls s'
  end.

Definition is_lower (a : ascii) : bool :=
  let n := nat_of_ascii a in (97 <=? n)%nat && (n <=? 122)%nat.
Definition is_digit (a : ascii) : bool :=
  let n := nat_of_ascii a in (48 <=? n)%nat && (n <=? 57)%nat.

(** The class of the name test: letters, the apostrophe, the space, the
    double quote and the comma. *)
Definition name_class (a : ascii) : bool :=
  is_upper a || is_lower a || Ascii.eqb a "'" || Ascii.eqb a " "
  || Ascii.eqb a (ascii_of_nat 34) || Ascii.eqb a ",".
(** The class [0-9]. *)
Definition integer_class (a : ascii) : bool := is_digit a.
(** The class [A-Z0-9]. *)
Definition code_class (a : ascii) : bool := is_upper a || is_digit a.

(** [needle in s] for strings. *)
Fixpoint is_substring (needle s : string) : bool :=
  String.prefix needle s
  || match s with
     | EmptyString => false
     | String _ s' => is_substring needle s'
     end.

(** The text [r'\.[0-9]{1,2}'] that marks a price pattern. *)
Definition price_marker : string := "\.[0-9]{1,2}".

(** The generator that [_create_pattern_generators] appends for a pattern:
    the first test that holds decides. *)
Definition generator_for (pattern : string) : Gen string :=
  if search_anchored name_class pattern then _generate_name
  else if search_anchored integer_class pattern then generate_age
  else if contains "@" pattern then _generate_email
  else if is_substring price_marker pattern then generate_price
  else if search_anchored code_class pattern then _generate_product_code
  else _generate_text 20.

Definition _create_pattern_generators (config : Config) : list (Gen string) :=
  map generator_for (patterns config).

(** [[generator() for generator in generators]]. *)
Fixpoint call_all (generators : list (Gen string)) : Gen (list string) :=
  match generators with
  | [] => ret []
  | g :: gs =>
      field <- g ;;
      fields <- call_all gs ;;
      ret (field :: fields)
  end.

(** [generate_record]: the fields are generated first, the delimiter is
    looked up after. *)
Definition generate_record (config : Config) (pattern_generators : list (Gen string))
           (rng : Random) : result string * Random :=
  match call_all pattern_generators rng with
  | (Raise e, rng') => (Failed (Raised e), rng')
  | (Return fields, rng') =>
      match delimiter config with
      | None => (Failed (KeyError "delimiter"), rng')
      | Some d => (Done (String.concat d fields), rng')
      end
  end.

(** The file: the lines written so far, each followed by a newline when
    written, and the size counted for them. *)
Definition file_size (lines : list string) : Z :=
  fold_right (fun line acc => len line + 1 + acc) 0 lines.

(** The loop [while current_size < target_size_bytes] of [generate_file];
    [None] when the fuel runs out. *)
Fixpoint write_records (fuel : nat) (config : Config)
         (pattern_generators : list (Gen string)) (target_size_bytes : Z)
         (current_size : Z) (lines : list string) (rng : Random)
  : option (result Z * list string * Random) :=
  if current_size <? target_size_bytes then
    match fuel with
    | O => None
    | S fuel' =>
        match generate_record config pattern_generators rng with
        | (Failed f, rng') => Some (Failed f, lines, rng')
        | (Done record, rng') =>
            write_records fuel' config pattern_generators target_size_bytes
                          (current_size + (len record + 1))
                          (lines ++ [record])%list rng'
        end
    end
  else Some (Done current_size, lines, rng).

(** The header line: Field1, Field2, ... joined by the delimiter. *)
Definition header_fields (config : Config) : list string :=
  map (fun i => "Field" ++ str (Z.of_nat i + 1)) (seq 0 (List.length (patterns config))).

(** [generate_file] from the target size in bytes (the conversion from
    megabytes is floating point) up to the lines it has written and the size
    it has counted. *)
Definition generate_file (config : Config) (pattern_generators : list (Gen string))
           (target_size_bytes : Z) (rng : Random)
  : option (result Z * list string * Random) :=
  match has_header config with
  | None => Some (Failed (KeyError "has_header"), [], rng)
  | Some true =>
      match delimiter config with
      | None => Some (Failed (KeyError "delimiter"), [], rng)
      | Some d =>
          let header := String.concat d (header_fields config) in
          write_records (Z.to_nat (target_size_bytes - (len header + 1)))
                        config pattern_generators target_size_bytes
                        (len header + 1) [header] rng
      end
  | Some false =>
      write_records (Z.to_nat target_size_bytes)
                    config pattern_generators target_size_bytes 0 [] rng
  end.

(** The lines [generate_file] starts with: the header, when configured. *)
Definition header_lines (config : Config) (with_header : bool) (d : string)
  : list string :=
  if with_header then [String.concat d (header_fields config)] else [].

(** Somewhere in [s] a '^' stands right before a character of the class. *)
Fixpoint caret_before (cls : ascii -> bool) (s : string) : bool :=
  match s with
  | EmptyString => false
  | String a s' =>
      (Ascii.eqb a "^" && match s' with
                          | String b _ => cls b
                          | EmptyString => false
                          end)
      || caret_before cls s'
  end.

(** Every character of the string is in the class. *)
Fixpoint all_in_class (cls : ascii -> bool) (s : string) : bool :=
  match s with
  | EmptyString => true
  | String a s' => cls a && all_in_class cls s'
  end.

(** A configuration with a comma as delimiter, a header and two patterns,
    and one without delimiter and header flag. *)
Definition sample_config : Config :=
  mkConfig (Some ",") None (Some true) ["^[0-9]+$"; "^[A-Z]+$"].

Definition bare_config : Config :=
  mkConfig None None None ["^[0-9]+$"].

(** * Properties *)

(** ** The random source *)

Lemma randint_in_range (a b : Z) (rng : Random) :
  a <= b ->
  exists x, randint a b rng = (Return x, snd (draw rng)) /\ a <= x <= b.
Proof.
  intros Hab. unfold randint.
  destruct (b <? a) eqn:E; [apply Z.ltb_lt in E; lia|].
  cbn. eexists; split; [reflexivity|].
  pose proof (Z.mod_pos_bound (rng O) (b - a + 1)). lia.
Qed.

Lemma randint_empty (a b : Z) (rng : Random) :
  b < a -> randint a b rng = (Raise EmptyRange, rng).
Proof.
  intros Hab. unfold randint.
  destruct (b <? a) eqn:E; [reflexivity|apply Z.ltb_ge in E; lia].
Qed.

Lemma randint_returns (a b x : Z) (rng rng' : Random) :
  randint a b rng = (Return x, rng') -> a <= x <= b.
Proof.
  unfold randint. destruct (b <? a) eqn:E; [discriminate|].
  apply Z.ltb_ge in E. cbn. intros H. injection H as <- _.
  pose proof (Z.mod_pos_bound (rng O) (b - a + 1)). lia.
Qed.

Lemma choice_in {A} (seq : list A) (rng : Random) :
  seq <> [] ->
  exists c, choice seq rng = (Return c, snd (draw rng)) /\ In c seq.
Proof.
  intros Hne. destruct seq as [|d l]; [congruence|].
  unfold choice. eexists; split; [reflexivity|].
  apply nth_In.
  pose proof (Z.mod_pos_bound (rng O) (Z.of_nat (List.length (d :: l)))) as B.
  cbn [List.length] in *. lia.
Qed.

Lemma choice_chars (rng : Random) :
  exists c, choice chars rng = (Return c, snd (draw rng)) /\ In c chars.
Proof. apply choice_in. discriminate. Qed.

(** ** Strings *)

Lemma split_length (c : ascii) (s : string) :
  List.length (split c s) = S (count c s).
Proof.
  induction s as [|a s IH]; [reflexivity|].
  cbn. destruct (Ascii.eqb a c).
  - cbn. now rewrite IH.
  - destruct (split c s); cbn in *; [discriminate|lia].
Qed.

Lemma contains_count (c : ascii) (s : string) :
  contains c s = negb (count c s =? 0)%nat.
Proof.
  induction s as [|a s IH]; [reflexivity|].
  cbn. destruct (Ascii.eqb a c); [reflexivity|]. exact IH.
Qed.

Lemma strip_prefix_no_colon (name : string) :
  count ":" name = O -> strip_prefix name = Return name.
Proof.
  intros H. unfold strip_prefix. now rewrite contains_count, H.
Qed.

Lemma strip_prefix_one_colon (name : string) :
  count ":" name = 1%nat -> exists name', strip_prefix name = Return name'.
Proof.
  intros H. unfold strip_prefix. rewrite contains_count, H. cbn.
  pose proof (split_length ":" name) as L. rewrite H in L.
  destruct (split ":" name) as [|p [|q [|r l]]]; cbn in L; try discriminate.
  now exists q.
Qed.

Lemma strip_prefix_many_colons (name : string) :
  (1 < count ":" name)%nat -> strip_prefix name = Raise UnpackError.
Proof.
  intros H. unfold strip_prefix. rewrite contains_count.
  destruct (count ":" name =? 0)%nat eqn:E; [apply Nat.eqb_eq in E; lia|].
  cbn. pose proof (split_length ":" name) as L.
  destruct (split ":" name) as [|p [|q [|r l]]]; cbn in L; try reflexivity; lia.
Qed.

(** ** Leaf values *)

Lemma join_choices_spec (n : nat) (rng : Random) :
  exists s rng',
    join_choices n rng = (Return s, rng')
    /\ String.length s = n
    /\ Forall (fun c => In c chars) (list_ascii_of_string s).
Proof.
  revert rng. induction n as [|n IH]; intros rng.
  - exists EmptyString, rng. cbn. auto.
  - destruct (choice_chars rng) as (c & Hc & Hin).
    destruct (IH (snd (draw rng))) as (s & rng' & Hs & Hl & Hall).
    exists (String c s), rng'. split; [|split].
    + cbn [join_choices]. unfold bind at 1. rewrite Hc.
      unfold bind at 1. rewrite Hs. reflexivity.
    + cbn. now rewrite Hl.
    + cbn. now constructor.
Qed.

Lemma zrange_In (a : Z) (n : nat) (x : Z) :
  a <= x < a + Z.of_nat n -> In x (zrange a n).
Proof.
  intros H. unfold zrange. apply in_map_iff.
  exists (Z.to_nat (x - a)). split; [lia|]. apply in_seq. lia.
Qed.

Lemma dates_read_back_all :
  forallb (fun y => forallb (fun m => forallb (date_reads_back y m) (zrange 1 28))
                            (zrange 1 12))
          (zrange 1900 201) = true.
Proof. vm_compute. reflexivity. Qed.

Lemma date_of_parses (year month day : Z) :
  1900 <= year <= 2100 -> 1 <= month <= 12 -> 1 <= day <= 28 ->
  parse_date (date_of year month day) = Some (year, month, day).
Proof.
  intros Hy Hm Hd.
  pose proof dates_read_back_all as H.
  rewrite forallb_forall in H.
  specialize (H year (zrange_In 1900 201 year ltac:(lia))).
  rewrite forallb_forall in H.
  specialize (H month (zrange_In 1 12 month ltac:(lia))).
  rewrite forallb_forall in H.
  specialize (H day (zrange_In 1 28 day ltac:(lia))).
  unfold date_reads_back in H.
  destruct (parse_date (date_of year month day)) as [[[y m] d]|]; [|discriminate].
  apply andb_true_iff in H as [H Hd']. apply andb_true_iff in H as [Hy' Hm'].
  apply Z.eqb_eq in Hy', Hm', Hd'. now subst.
Qed.

(** C8: whatever the random source, the date generator returns a string of
    the form YYYY-MM-DD (four digits, dash, two digits, dash, two digits)
    whose year lies in 1900..2100, month in 1..12 and day in 1..28. *)
Theorem C8_generate_date_form (rng : Random) :
  exists s rng' year month day,
    _generate_date rng = (Return s, rng')
    /\ parse_date s = Some (year, month, day)
    /\ 1900 <= year <= 2100 /\ 1 <= month <= 12 /\ 1 <= day <= 28.
Proof.
  destruct (randint_in_range 1900 2100 rng ltac:(lia)) as (y & Ey & Hy).
  destruct (randint_in_range 1 12 (snd (draw rng)) ltac:(lia)) as (m & Em & Hm).
  destruct (randint_in_range 1 28 (snd (draw (snd (draw rng)))) ltac:(lia))
    as (d & Ed & Hd).
  exists (date_of y m d), (snd (draw (snd (draw (snd (draw rng)))))), y, m, d.
  split; [|split; [apply date_of_parses; assumption|auto]].
  unfold _generate_date.
  unfold bind at 1. rewrite Ey.
  unfold bind at 1. rewrite Em.
  unfold bind at 1. rewrite Ed.
  reflexivity.
Qed.

Lemma dict_get_unregistered {V} (d : list (string * V)) (key : string) (default : V) :
  ~ In key (map fst d) -> dict_get d key default = default.
Proof.
  induction d as [|[k v] d IH]; intros Hnot; [reflexivity|].
  cbn in *. destruct (String.eqb k key) eqn:E.
  - apply String.eqb_eq in E. tauto.
  - apply IH. tauto.
Qed.

(** C9: a type tag whose local name (the part after the last colon) is none
    of the seven registered names is served by the string generator: the
    content generator does not raise and returns 20 characters, each a
    letter, a digit or a space. *)
Theorem C9_unknown_type_falls_back
        (element : Element) (depth : Z) (rng : Random) (type_name : string) :
  get element "type" = Some type_name ->
  ~ In (base_type_of type_name) registered_types ->
  _generate_element_content element depth rng = _generate_string None rng
  /\ exists s rng',
      _generate_element_content element depth rng = (Return s, rng')
      /\ String.length s = 20%nat
      /\ Forall (fun c => In c chars) (list_ascii_of_string s).
Proof.
  intros Htype Hnot.
  assert (E : _generate_element_content element depth = _generate_string None).
  { unfold _generate_element_content. rewrite Htype.
    now apply dict_get_unregistered. }
  rewrite E. split; [reflexivity|].
  apply (join_choices_spec 20 rng).
Qed.

Lemma C9_unknown_type_witness :
  exists s rng',
    _generate_element_content (element_def_of "e" (Some "xs:token") []) 0 (constant 0)
    = (Return s, rng')
    /\ String.length s = 20%nat
    /\ Forall (fun c => In c chars) (list_ascii_of_string s).
Proof.
  refine (proj2 (C9_unknown_type_falls_back
                   (element_def_of "e" (Some "xs:token") []) 0 (constant 0)
                   "xs:token" eq_refl _)).
  cbn. intros H. repeat (destruct H as [H|H]; [discriminate H|]). exact H.
Defined.

(** ** The loop over the children *)

Section LoopFacts.
Context {X : Type}.
Variable child : X -> Z -> option (outcome Z * X).
Variables remaining_size children_count : Z.

Lemma children_loop_total :
  (forall x b, exists r, child x b = Some r) ->
  forall iters size_used x,
  exists r, children_loop child remaining_size children_count iters size_used x = Some r.
Proof.
  intros Hchild. induction iters as [|iters IH]; intros size_used x; cbn.
  - eauto.
  - destruct (Hchild x (child_budget remaining_size size_used children_count))
      as [[[child_size|e] x'] ->]; eauto.
Qed.

Lemma children_loop_invariant (I : X -> Prop) :
  (forall x b o x', I x -> child x b = Some (o, x') -> I x') ->
  forall iters size_used x o x',
    I x ->
    children_loop child remaining_size children_count iters size_used x = Some (o, x') ->
    I x'.
Proof.
  intros Hchild. induction iters as [|iters IH]; intros size_used x o x' Hx; cbn.
  - intros [= _ <-]. exact Hx.
  - destruct (child x _) as [[[child_size|e] x1]|] eqn:E; try discriminate.
    + apply IH. eapply Hchild; eauto.
    + intros [= _ <-]. eapply Hchild; eauto.
Qed.
End LoopFacts.

Lemma children_loop_mono {X} (child1 child2 : X -> Z -> option (outcome Z * X))
      (remaining_size children_count : Z) :
  (forall x b r, child1 x b = Some r -> child2 x b = Some r) ->
  forall iters size_used x r,
    children_loop child1 remaining_size children_count iters size_used x = Some r ->
    children_loop child2 remaining_size children_count iters size_used x = Some r.
Proof.
  intros Hchild. induction iters as [|iters IH]; intros size_used x r; cbn; [auto|].
  destruct (child1 x _) as [[[child_size|e] x1]|] eqn:E; try discriminate;
    rewrite (Hchild _ _ _ E); auto.
Qed.

(** A loop over a state that carries more than another one does the same
    as the loop over the smaller state, when the calls they make do. *)
Lemma children_loop_erase {X Y} (f : Y -> X)
      (child1 : X -> Z -> option (outcome Z * X))
      (child2 : Y -> Z -> option (outcome Z * Y))
      (remaining_size children_count : Z) :
  (forall y b, child1 (f y) b = option_map (fun r => (fst r, f (snd r))) (child2 y b)) ->
  forall iters size_used y,
    children_loop child1 remaining_size children_count iters size_used (f y)
    = option_map (fun r => (fst r, f (snd r)))
                 (children_loop child2 remaining_size children_count iters size_used y).
Proof.
  intros Hchild. induction iters as [|iters IH]; intros size_used y; cbn; [reflexivity|].
  rewrite Hchild.
  destruct (child2 y _) as [[[child_size|e] y1]|]; cbn; auto.
Qed.

(** ** The walker *)

Section WalkerFacts.
Variable valid_tag : string -> bool.

Lemma walk_unfold fuel element_def parent remaining_size depth rng :
  walk valid_tag fuel element_def parent remaining_size depth rng
  = if (remaining_size <=? 0) || (depth >? 100) then Some (Return 0, (parent, rng))
    else
      match fuel with
      | O => None
      | S fuel' =>
          match get element_def "name" with
          | None => Some (Raise NoneName, (parent, rng))
          | Some name =>
              match strip_prefix name with
              | Raise e => Some (Raise e, (parent, rng))
              | Return name =>
                  if negb (valid_tag name) then Some (Raise InvalidTag, (parent, rng))
                  else
                    let element := mkElement name [] None [] in
                    if truthy (get element_def "type") then
                      match _generate_element_content element_def depth rng with
                      | (Raise e, rng') =>
                          Some (Raise e, (append_child parent element, rng'))
                      | (Return content, rng') =>
                          Some (Return (len content + len name * 2 + 5),
                                (append_child parent (set_text element content), rng'))
                      end
                    else
                      let size_used := len name * 2 + 5 in
                      match randint DEFAULT_MIN_CHILDREN
                                    (Z.min DEFAULT_MAX_CHILDREN
                                           (remaining_size / AVERAGE_ELEMENT_OVERHEAD))
                                    rng with
                      | (Raise e, rng') =>
                          Some (Raise e, (append_child parent element, rng'))
                      | (Return children_count, rng') =>
                          match children_loop
                                  (fun '(el, r) budget =>
                                     walk valid_tag fuel' element_def el budget (depth + 1) r)
                                  remaining_size children_count
                                  (Z.to_nat children_count) size_used
                                  (element, rng') with
                          | None => None
                          | Some (o, (element', rng'')) =>
                              Some (o, (append_child parent element', rng''))
                          end
                      end
              end
          end
      end.
Proof. destruct fuel; reflexivity. Qed.

Lemma guard_true remaining_size depth :
  remaining_size <= 0 \/ 100 < depth ->
  (remaining_size <=? 0) || (depth >? 100) = true.
Proof.
  intros [H|H]; apply orb_true_iff; [left; lia|right; lia].
Qed.

Lemma guard_false remaining_size depth :
  (remaining_size <=? 0) || (depth >? 100) = false ->
  0 < remaining_size /\ depth <= 100.
Proof. intros H. apply orb_false_iff in H. lia. Qed.

Lemma walk_guard fuel element_def parent remaining_size depth rng :
  remaining_size <= 0 \/ 100 < depth ->
  walk valid_tag fuel element_def parent remaining_size depth rng
  = Some (Return 0, (parent, rng)).
Proof. intros H. rewrite walk_unfold, guard_true; auto. Qed.

Lemma fuel_for_succ depth :
  depth <= 100 -> fuel_for depth = S (fuel_for (depth + 1)).
Proof. unfold fuel_for. lia. Qed.

Lemma walk_total fuel :
  forall element_def parent remaining_size depth rng,
    (fuel_for depth <= fuel)%nat ->
    exists r, walk valid_tag fuel element_def parent remaining_size depth rng = Some r.
Proof.
  induction fuel as [|fuel IH]; intros element_def parent remaining_size depth rng Hfuel;
    rewrite walk_unfold;
    destruct ((remaining_size <=? 0) || (depth >? 100)) eqn:G; eauto.
  - apply guard_false in G. unfold fuel_for in Hfuel. lia.
  - apply guard_false in G as [_ Hd].
    destruct (get element_def "name") as [name|]; eauto.
    destruct (strip_prefix name) as [local|e]; eauto.
    destruct (negb (valid_tag local)); eauto.
    cbv zeta.
    destruct (truthy (get element_def "type")).
    + destruct (_generate_element_content element_def depth rng) as [[content|e] rng'];
        eauto.
    + destruct (randint _ _ rng) as [[children_count|e] rng']; eauto.
      match goal with
      | |- context [children_loop ?c ?r ?n ?i ?u ?st] =>
          destruct (children_loop_total c r n) with (iters := i) (size_used := u) (x := st)
            as [[o [element' rng'']] ->]; eauto
      end.
      intros [el r] b. apply IH. rewrite fuel_for_succ in Hfuel; lia.
Qed.

Lemma walk_mono fuel :
  forall fuel' element_def parent remaining_size depth rng r,
    (fuel <= fuel')%nat ->
    walk valid_tag fuel element_def parent remaining_size depth rng = Some r ->
    walk valid_tag fuel' element_def parent remaining_size depth rng = Some r.
Proof.
  induction fuel as [|fuel IH];
    intros fuel' element_def parent remaining_size depth rng r Hle;
    rewrite (walk_unfold fuel'), walk_unfold;
    destruct ((remaining_size <=? 0) || (depth >? 100)) eqn:G; auto; try discriminate.
  destruct fuel' as [|fuel']; [lia|].
  destruct (get element_def "name") as [name|]; auto.
  destruct (strip_prefix name) as [local|e]; auto.
  destruct (negb (valid_tag local)); auto.
  cbv zeta.
  destruct (truthy (get element_def "type")); auto.
  destruct (randint _ _ rng) as [[children_count|e] rng']; auto.
  match goal with
  | |- context [children_loop ?c ?r ?n ?i ?u ?st] =>
      destruct (children_loop c r n i u st) as [[o [element' rng'']]|] eqn:L;
        [|discriminate]
  end.
  match goal with
  | |- context [children_loop ?c ?r ?n ?i ?u ?st] =>
      replace (children_loop c r n i u st) with (Some (o, (element', rng''))); auto
  end.
  symmetry. eapply children_loop_mono; [|exact L].
  intros [el r0] b r1. apply IH. lia.
Qed.

(** The walker terminates, and what it computes does not depend on the
    fuel once there is enough. *)
Lemma _create_element_total element_def parent remaining_size depth rng :
  exists o parent' rng',
    _create_element valid_tag element_def parent remaining_size depth rng
    = Some (o, (parent', rng'))
    /\ forall fuel, (fuel_for depth <= fuel)%nat ->
         walk valid_tag fuel element_def parent remaining_size depth rng
         = Some (o, (parent', rng')).
Proof.
  destruct (walk_total (fuel_for depth) element_def parent remaining_size depth rng
                       (Nat.le_refl _)) as [[o [parent' rng']] E].
  exists o, parent', rng'. split; [exact E|].
  intros fuel Hfuel. eapply walk_mono; eauto.
Qed.

Lemma height_eq (e : Element) : height e = S (forest_height (children e)).
Proof. destruct e; reflexivity. Qed.

Lemma forest_height_app (l : list Element) (e : Element) :
  forest_height (l ++ [e]) = Nat.max (forest_height l) (height e).
Proof.
  unfold forest_height. induction l as [|c l IH]; cbn; [lia|].
  rewrite IH. lia.
Qed.

(** What a call of the walker does to its parent: nothing, or one more
    child at the end, named after the element definition and no higher
    than the levels left below the ceiling. *)
Lemma walk_extends fuel :
  forall element_def parent remaining_size depth rng o parent' rng',
    walk valid_tag fuel element_def parent remaining_size depth rng
    = Some (o, (parent', rng')) ->
    parent' = parent
    \/ (0 < remaining_size /\ depth <= 100
        /\ exists name local e,
            get element_def "name" = Some name
            /\ strip_prefix name = Return local
            /\ parent' = append_child parent e
            /\ tag e = local
            /\ (height e <= fuel_for depth)%nat).
Proof.
  induction fuel as [|fuel IH];
    intros element_def parent remaining_size depth rng o parent' rng';
    rewrite walk_unfold;
    destruct ((remaining_size <=? 0) || (depth >? 100)) eqn:G;
    try (intros [= _ <- _]; now left); try discriminate.
  apply guard_false in G as [Hr Hd].
  pose proof (fuel_for_succ depth Hd) as Hf.
  destruct (get element_def "name") as [name|]; [|intros [= _ <- _]; now left].
  destruct (strip_prefix name) as [local|e] eqn:Hs; [|intros [= _ <- _]; now left].
  destruct (negb (valid_tag local)); [intros [= _ <- _]; now left|].
  cbv zeta. intros H. right. split; [exact Hr|split; [exact Hd|]].
  exists name, local.
  destruct (truthy (get element_def "type")).
  - destruct (_generate_element_content element_def depth rng) as [[content|e] rng1];
      injection H as _ <- _; eexists; repeat split;
        try reflexivity; try assumption; cbn; lia.
  - destruct (randint _ _ rng) as [[children_count|e] rng1].
    + match type of H with
      | context [children_loop ?c ?r ?n ?i ?u ?st] =>
          destruct (children_loop c r n i u st) as [[o1 [element' rng2]]|] eqn:L;
            [|discriminate];
          pose proof (children_loop_invariant c r n
            (fun x => tag (fst x) = local
                      /\ (forest_height (children (fst x)) <= fuel_for (depth + 1))%nat))
            as Inv
      end.
      injection H as _ <- _.
      exists element'. 
      assert (I' : tag element' = local
                   /\ (forest_height (children element') <= fuel_for (depth + 1))%nat).
      { eapply (Inv) with (x := (mkElement local [] None [], rng1)) (x' := (element', rng2));
          [|cbn; split; [reflexivity|lia]|exact L].
        intros [el r] b o2 [el' r'] [Ht Hh] E. cbn in *.
        apply IH in E as [->|(_ & _ & _ & _ & e & _ & _ & -> & _ & He)]; [auto|].
        cbn. rewrite forest_height_app. split; [exact Ht|lia]. }
      destruct I' as [Ht Hh]. repeat split; auto.
      rewrite height_eq. lia.
    + injection H as _ <- _. eexists; repeat split;
        try reflexivity; try assumption; cbn; lia.
Qed.

(** A call that passes the guard and returns has appended one node. *)
Lemma walk_creates fuel element_def parent remaining_size depth rng size_used parent' rng' :
  0 < remaining_size -> depth <= 100 ->
  walk valid_tag fuel element_def parent remaining_size depth rng
  = Some (Return size_used, (parent', rng')) ->
  exists name local e,
    get element_def "name" = Some name
    /\ strip_prefix name = Return local
    /\ valid_tag local = true
    /\ parent' = append_child parent e
    /\ tag e = local.
Proof.
  intros Hr Hd. rewrite walk_unfold.
  destruct ((remaining_size <=? 0) || (depth >? 100)) eqn:G.
  { apply orb_true_iff in G. lia. }
  destruct fuel as [|fuel]; [discriminate|].
  destruct (get element_def "name") as [name|]; [|discriminate].
  destruct (strip_prefix name) as [local|e] eqn:Hs; [|discriminate].
  destruct (valid_tag local) eqn:Hv; [|discriminate].
  cbv zeta. cbn [negb]. intros H. exists name, local.
  destruct (truthy (get element_def "type")).
  - destruct (_generate_element_content element_def depth rng) as [[content|e] rng1];
      [|discriminate].
    injection H as _ <- _. eexists; repeat split; try reflexivity; assumption.
  - destruct (randint _ _ rng) as [[children_count|e] rng1]; [|discriminate].
    match type of H with
    | context [children_loop ?c ?r ?n ?i ?u ?st] =>
        destruct (children_loop c r n i u st) as [[o1 [element' rng2]]|] eqn:L;
          [|discriminate];
        pose proof (children_loop_invariant c r n (fun x => tag (fst x) = local)) as Inv
    end.
    injection H as _ <- _. exists element'. repeat split; auto.
    eapply Inv with (x := (mkElement local [] None [], rng1)) (x' := (element', rng2));
      [|reflexivity|exact L].
    intros [el r] b o2 [el' r'] Ht E. cbn in *.
    apply walk_extends in E as [->|(_ & _ & _ & _ & e & _ & _ & -> & _)]; auto.
Qed.
End WalkerFacts.

(** ** The tree of calls *)

Section TracedLoop.
(** A loop whose calls each log themselves: what the log says. *)
Variable child : Element * Random * list Call -> Z
                 -> option (outcome Z * (Element * Random * list Call)).
Variables remaining_size children_count : Z.
Variable P : Call -> Prop.
Hypothesis child_logs :
  forall el r log b o el' r' log',
    child (el, r, log) b = Some (o, (el', r', log')) ->
    exists c, log' = (log ++ [c])%list
              /\ call_budget c = b /\ call_outcome c = o /\ P c.

Lemma traced_loop iters :
  forall size_used el r log o el' r' log',
    children_loop child remaining_size children_count iters size_used (el, r, log)
    = Some (o, (el', r', log')) ->
    exists new,
      log' = (log ++ new)%list
      /\ (List.length new <= iters)%nat
      /\ Forall P new
      /\ (forall i, budgets_follow (code_budget remaining_size children_count)
                                   i size_used new)
      /\ match o with
         | Return total =>
             List.length new = iters /\ total = size_used + returned_total new
         | Raise e =>
             exists c, last new c = c /\ In c new /\ call_outcome c = Raise e
         end.
Proof.
  induction iters as [|iters IH]; intros size_used el r log o el' r' log'; cbn.
  - intros [= <- <- <- <-]. exists []. rewrite app_nil_r. cbn.
    repeat split; auto. lia.
  - destruct (child (el, r, log) _) as [[o1 [[el1 r1] log1]]|] eqn:E; [|discriminate].
    apply child_logs in E as (c & -> & Hb & Ho & Hc).
    destruct o1 as [child_size|e].
    + intros L. apply IH in L as (new & -> & Hlen & HP & Hbud & Hend).
      exists (c :: new). rewrite <- app_assoc. cbn.
      split; [reflexivity|]. split; [lia|]. split; [now constructor|].
      split.
      * intros i. rewrite Ho. split; [exact Hb|apply Hbud].
      * rewrite Ho. destruct o as [total|e].
        -- destruct Hend as [-> ->]. split; [reflexivity|].
           unfold returned_total. lia.
        -- destruct Hend as (c' & Hl & Hin & Hr). exists c'.
           split; [|split; [now right|exact Hr]].
           destruct new; [destruct Hin|exact Hl].
    + intros [= <- <- <- <-]. exists [c]. cbn.
      split; [reflexivity|]. split; [lia|]. split; [now constructor|].
      split.
      * intros i. rewrite Ho. split; [exact Hb|reflexivity].
      * exists c. rewrite Ho. auto.
Qed.
End TracedLoop.

Section CallFacts.
Variable valid_tag : string -> bool.

(** The call tree comes on top: the walk itself is the same. *)
Lemma walk_calls_erase fuel :
  forall element_def parent remaining_size depth rng,
    walk valid_tag fuel element_def parent remaining_size depth rng
    = option_map fst
        (walk_calls valid_tag fuel element_def parent remaining_size depth rng).
Proof.
  induction fuel as [|fuel IH]; intros element_def parent remaining_size depth rng;
    cbn [walk walk_calls];
    destruct ((remaining_size <=? 0) || (depth >? 100)); try reflexivity.
  destruct (get element_def "name") as [name|]; [|reflexivity].
  destruct (strip_prefix name) as [local|e]; [|reflexivity].
  destruct (negb (valid_tag local)); [reflexivity|].
  cbv zeta.
  destruct (truthy (get element_def "type")).
  - destruct (_generate_element_content element_def depth rng) as [[content|e] rng1];
      reflexivity.
  - destruct (randint _ _ rng) as [[children_count|e] rng1]; [|reflexivity].
    match goal with
    | |- match children_loop ?c1 ?r ?n ?i ?u _ with _ => _ end
         = option_map fst (match children_loop ?c2 _ _ _ _ ?st with _ => _ end) =>
        pose proof (children_loop_erase
                      (fun y : Element * Random * list Call => fst y)
                      c1 c2 r n) as E;
        specialize (fun H => E H i u st)
    end.
    cbn [fst] in E. rewrite E.
    + match goal with
      | |- context [children_loop ?c ?r ?n ?i ?u ?st] =>
          destruct (children_loop c r n i u st) as [[o [[el r2] log]]|]; reflexivity
      end.
    + intros [[el r0] log] b. cbn [fst]. rewrite IH.
      destruct (walk_calls valid_tag fuel element_def el b (depth + 1) r0)
        as [[[o [el' r']] c]|]; reflexivity.
Qed.

(** A call is logged with its own arguments and its own outcome. *)
Lemma walk_calls_head fuel element_def parent remaining_size depth rng o st c :
  walk_calls valid_tag fuel element_def parent remaining_size depth rng
  = Some (o, st, c) ->
  call_depth c = depth /\ call_budget c = remaining_size /\ call_outcome c = o.
Proof.
  destruct fuel as [|fuel]; cbn [walk_calls];
    destruct ((remaining_size <=? 0) || (depth >? 100));
    try (intros [= <- _ <-]; now cbn); try discriminate.
  destruct (get element_def "name") as [name|]; [|intros [= <- _ <-]; now cbn].
  destruct (strip_prefix name) as [local|e]; [|intros [= <- _ <-]; now cbn].
  destruct (negb (valid_tag local)); [intros [= <- _ <-]; now cbn|].
  cbv zeta.
  destruct (truthy (get element_def "type")).
  - destruct (_generate_element_content element_def depth rng) as [[content|e] rng1];
      intros [= <- _ <-]; now cbn.
  - destruct (randint _ _ rng) as [[children_count|e] rng1];
      [|intros [= <- _ <-]; now cbn].
    match goal with
    | |- context [children_loop ?c ?r ?n ?i ?u ?st] =>
        destruct (children_loop c r n i u st) as [[o1 [[el r2] log]]|];
          [|discriminate]
    end.
    intros [= <- _ <-]; now cbn.
Qed.

(** The calls a traced walk hands to the loop log themselves. *)
Lemma traced_child_logs (P : Call -> Prop) fuel element_def depth :
  (forall parent remaining_size rng o st c,
      walk_calls valid_tag fuel element_def parent remaining_size (depth + 1) rng
      = Some (o, st, c) -> P c) ->
  forall el r log b o el' r' log',
    (fun '(el, r, log) budget =>
       match walk_calls valid_tag fuel element_def el budget (depth + 1) r with
       | None => None
       | Some (o, (el', r'), c) => Some (o, (el', r', (log ++ [c])%list))
       end) (el, r, log) b = Some (o, (el', r', log')) ->
    exists c, log' = (log ++ [c])%list
              /\ call_budget c = b /\ call_outcome c = o /\ P c.
Proof.
  intros HP el r log b o el' r' log'. cbn beta iota.
  destruct (walk_calls valid_tag fuel element_def el b (depth + 1) r)
    as [[[o1 [el1 r1]] c]|] eqn:E; [|discriminate].
  intros [= <- <- <- <-]. exists c.
  pose proof (walk_calls_head _ _ _ _ _ _ _ _ _ E) as (_ & Hb & Ho).
  repeat split; eauto.
Qed.

(** In the whole tree of calls, a call whose budget is not positive
    stopped at once. *)
Lemma walk_calls_stop fuel :
  forall element_def parent remaining_size depth rng o st c,
    walk_calls valid_tag fuel element_def parent remaining_size depth rng
    = Some (o, st, c) ->
    Forall (fun c' => call_budget c' <= 0 -> stopped c') (all_calls c).
Proof.
  induction fuel as [|fuel IH];
    intros element_def parent remaining_size depth rng o st c;
    cbn [walk_calls];
    destruct ((remaining_size <=? 0) || (depth >? 100)) eqn:G;
    try (intros [= _ _ <-]; cbn; constructor; [intros _; now split|constructor]);
    try discriminate.
  apply guard_false in G as [Hr Hd].
  assert (Leaf : forall o', Forall (fun c' => call_budget c' <= 0 -> stopped c')
                                   (all_calls (mkCall depth remaining_size o' []))).
  { intros o'. cbn. constructor; [cbn; lia|constructor]. }
  destruct (get element_def "name") as [name|]; [|intros [= _ _ <-]; apply Leaf].
  destruct (strip_prefix name) as [local|e]; [|intros [= _ _ <-]; apply Leaf].
  destruct (negb (valid_tag local)); [intros [= _ _ <-]; apply Leaf|].
  cbv zeta.
  destruct (truthy (get element_def "type")).
  - destruct (_generate_element_content element_def depth rng) as [[content|e] rng1];
      intros [= _ _ <-]; apply Leaf.
  - destruct (randint _ _ rng) as [[children_count|e] rng1];
      [|intros [= _ _ <-]; apply Leaf].
    match goal with
    | |- context [children_loop ?ch ?r ?n ?i ?u ?s0] =>
        destruct (children_loop ch r n i u s0) as [[o1 [[el r2] log]]|] eqn:L;
          [|discriminate];
        apply (traced_loop ch r n
                 (fun c => Forall (fun c' => call_budget c' <= 0 -> stopped c')
                                  (all_calls c))
                 (traced_child_logs _ fuel element_def depth
                    (fun p b g o' s' c' => IH element_def p b (depth + 1) g o' s' c')))
          in L as (new & Hlog & _ & Hall & _)
    end.
    cbn in Hlog. subst log. intros [= _ _ <-]. cbn.
    constructor; [cbn; lia|].
    clear -Hall. induction Hall as [|c l Hc _ IHl]; cbn; [constructor|].
    apply Forall_app. split; assumption.
Qed.
End CallFacts.

(** ** Constructing the generator *)

Lemma init_returns (schema : Element) (self : XMLGenerator) :
  __init__ schema = Return self ->
  _find_root_element schema = Some (root_element self)
  /\ element_bool (root_element self) = true
  /\ exists name, get (root_element self) "name" = Some name.
Proof.
  unfold __init__.
  destruct (_find_root_element schema) as [e|] eqn:F; [|discriminate].
  destruct (element_bool e) eqn:B; cbn; [|discriminate].
  intros [= <-]. cbn. repeat split; auto.
  unfold _find_root_element in F.
  destruct (xpath_named_elements schema) as [|e' l] eqn:X; [discriminate|].
  injection F as ->.
  assert (Hin : In e (xpath_named_elements schema)) by (rewrite X; now left).
  apply filter_In in Hin as [_ Hp]. apply andb_true_iff in Hp as [_ Hp].
  destruct (get e "name") as [name|]; [eauto|discriminate].
Qed.

(** Without any named element definition the constructor raises. *)
Lemma init_no_element (schema : Element) :
  xpath_named_elements schema = [] -> __init__ schema = Raise RootNotFound.
Proof. intros H. unfold __init__, _find_root_element. now rewrite H. Qed.

(** The first named element in document order is taken, top-level or not. *)
Lemma find_root_nested_first :
  option_map (fun e => get e "name") (_find_root_element nested_first_schema)
  = Some (Some "inner").
Proof. reflexivity. Qed.

(** C7: the constructor takes the first named xs:element of the document and
    raises when there is none; but it also raises on a schema that does have
    an element definition, when that definition has no child node: here on
    <xs:element name="Root" type="xs:string"/>. *)
Theorem C7_typed_root_rejected :
  _find_root_element typed_schema = Some typed_root
  /\ __init__ typed_schema = Raise RootNotFound
  /\ __init__ empty_schema = Raise RootNotFound
  /\ __init__ annotated_schema = Return (mkXMLGenerator annotated_schema annotated_root).
Proof. repeat split. Qed.

(** ** The walker on its own *)

Section ClaimsOnWalker.
Variable valid_tag : string -> bool.

Lemma _create_element_calls_erase element_def parent remaining_size depth rng :
  _create_element valid_tag element_def parent remaining_size depth rng
  = option_map fst
      (_create_element_calls valid_tag element_def parent remaining_size depth rng).
Proof. apply walk_calls_erase. Qed.

(** A container whose budget is positive but below one element's
    overhead asks for a random count in an empty range. *)
Lemma walk_container_small_budget
      fuel element_def parent remaining_size depth rng name local :
  0 < remaining_size < AVERAGE_ELEMENT_OVERHEAD -> depth <= 100 ->
  get element_def "name" = Some name ->
  strip_prefix name = Return local ->
  valid_tag local = true ->
  truthy (get element_def "type") = false ->
  walk valid_tag (S fuel) element_def parent remaining_size depth rng
  = Some (Raise EmptyRange, (append_child parent (mkElement local [] None []), rng)).
Proof.
  intros Hr Hd Hn Hs Hv Ht. unfold AVERAGE_ELEMENT_OVERHEAD in Hr.
  rewrite walk_unfold.
  destruct ((remaining_size <=? 0) || (depth >? 100)) eqn:G.
  { apply orb_true_iff in G. lia. }
  rewrite Hn, Hs, Hv, Ht. cbn [negb]. cbv zeta.
  rewrite randint_empty; [reflexivity|].
  unfold DEFAULT_MIN_CHILDREN, DEFAULT_MAX_CHILDREN, AVERAGE_ELEMENT_OVERHEAD.
  rewrite Z.div_small by lia. lia.
Qed.

(** C3: a call with a remaining size of at most 0, or at a depth above 100,
    returns 0 and leaves its parent as it was.  Every call terminates (its
    result is there, and the same for any larger fuel), and what it appends
    to its parent is at most one subtree of no more than [101 - depth]
    levels: the nodes made at the depths [depth], ..., 100. *)
Theorem C3_guard_bounds_walk
        (element_def parent : Element) (remaining_size depth : Z) (rng : Random) :
  (remaining_size <= 0 \/ 100 < depth ->
   _create_element valid_tag element_def parent remaining_size depth rng
   = Some (Return 0, (parent, rng)))
  /\ exists o parent' rng',
      _create_element valid_tag element_def parent remaining_size depth rng
      = Some (o, (parent', rng'))
      /\ (forall fuel, (fuel_for depth <= fuel)%nat ->
            walk valid_tag fuel element_def parent remaining_size depth rng
            = Some (o, (parent', rng')))
      /\ (parent' = parent
          \/ (depth <= 100
              /\ exists e, parent' = append_child parent e
                           /\ (height e <= fuel_for depth)%nat)).
Proof.
  split.
  - apply walk_guard.
  - destruct (_create_element_total valid_tag element_def parent remaining_size depth rng)
      as (o & parent' & rng' & E & Hfuel).
    exists o, parent', rng'. split; [exact E|split; [exact Hfuel|]].
    apply walk_extends in E
        as [->|(_ & Hd & _ & _ & e & _ & _ & -> & _ & He)]; [now left|].
    right. split; [exact Hd|]. now exists e.
Qed.

(** C2, amended: on a container the budget of every child call is
    [(remaining_size - size_used) // children_count]: the size used so far
    is taken anew before each child, the divisor is the total number of
    children throughout. *)
Theorem C2_budget_divides_by_total_count
        (element_def parent : Element) (remaining_size depth : Z) (rng : Random)
        (name local : string) (children_count : Z) (rng1 : Random)
        (o : outcome Z) (st : State) (c : Call) :
  0 < remaining_size -> depth <= 100 ->
  get element_def "name" = Some name ->
  strip_prefix name = Return local ->
  valid_tag local = true ->
  truthy (get element_def "type") = false ->
  randint DEFAULT_MIN_CHILDREN
          (Z.min DEFAULT_MAX_CHILDREN (remaining_size / AVERAGE_ELEMENT_OVERHEAD))
          rng = (Return children_count, rng1) ->
  _create_element_calls valid_tag element_def parent remaining_size depth rng
  = Some (o, st, c) ->
  budgets_follow (code_budget remaining_size children_count)
                 0 (len local * 2 + 5) (subcalls c)
  /\ Forall (fun sub => call_depth sub = depth + 1) (subcalls c)
  /\ (List.length (subcalls c) <= Z.to_nat children_count)%nat
  /\ (forall total, o = Return total ->
        List.length (subcalls c) = Z.to_nat children_count
        /\ total = len local * 2 + 5 + returned_total (subcalls c)).
Proof.
  intros Hr Hd Hn Hs Hv Ht Hrand. unfold _create_element_calls.
  rewrite (fuel_for_succ depth Hd). cbn [walk_calls].
  destruct ((remaining_size <=? 0) || (depth >? 100)) eqn:G.
  { apply orb_true_iff in G. lia. }
  rewrite Hn, Hs, Hv, Ht, Hrand. cbn [negb]. cbv zeta.
  match goal with
  | |- context [children_loop ?ch ?r ?n ?i ?u ?s0] =>
      destruct (children_loop ch r n i u s0) as [[o1 [[el r2] log]]|] eqn:L;
        [|discriminate];
      apply (traced_loop ch r n (fun sub => call_depth sub = depth + 1)
               (traced_child_logs valid_tag _ (fuel_for (depth + 1)) element_def depth
                  (fun p b g o' s' c' H =>
                     proj1 (walk_calls_head valid_tag _ _ _ _ _ _ _ _ _ H))))
        in L as (new & Hlog & Hlen & Hall & Hbud & Hend)
  end.
  cbn in Hlog. subst log. intros [= <- _ <-]. cbn [subcalls].
  split; [apply Hbud|split; [exact Hall|split; [exact Hlen|]]].
  intros total ->. exact Hend.
Qed.

(** C4, amended: the budget of a child call is an integer that can be
    negative.  Whenever the budget of a call, anywhere in the tree of
    calls, is at most 0, that call returns 0 at once and makes no further
    call; and a call with such a budget leaves its parent without a new
    node. *)
Theorem C4_nonpositive_budget_stops
        (element_def parent : Element) (remaining_size depth : Z) (rng : Random)
        (o : outcome Z) (st : State) (c : Call) :
  _create_element_calls valid_tag element_def parent remaining_size depth rng
  = Some (o, st, c) ->
  Forall (fun c' => call_budget c' <= 0 -> stopped c') (all_calls c)
  /\ (remaining_size <= 0 -> o = Return 0 /\ st = (parent, rng)).
Proof.
  intros E. split.
  - eapply walk_calls_stop. exact E.
  - intros Hr.
    pose proof (_create_element_calls_erase element_def parent remaining_size depth rng)
      as Er.
    rewrite E in Er. unfold _create_element in Er.
    rewrite walk_guard in Er by auto. cbn in Er. injection Er as -> ->. auto.
Qed.

(** C10, amended: stripping the prefix succeeds on every name with at most
    one colon and fails on every name with more.  A call that passes the
    termination guard (positive remaining size, depth at most 100) on an
    element definition whose name has more than one colon raises at the
    unpacking and creates no node; a call that the guard stops returns 0
    without looking at the name. *)
Theorem C10_many_colons_raise_past_guard (name : string) :
  ((count ":" name <= 1)%nat -> exists local, strip_prefix name = Return local)
  /\ ((1 < count ":" name)%nat ->
      strip_prefix name = Raise UnpackError
      /\ forall element_def parent remaining_size depth rng,
          get element_def "name" = Some name ->
          0 < remaining_size -> depth <= 100 ->
          _create_element valid_tag element_def parent remaining_size depth rng
          = Some (Raise UnpackError, (parent, rng))).
Proof.
  split.
  - intros H. destruct (count ":" name) as [|[|n]] eqn:E; [| |lia].
    + exists name. now apply strip_prefix_no_colon.
    + now apply strip_prefix_one_colon.
  - intros H. pose proof (strip_prefix_many_colons name H) as Hs.
    split; [exact Hs|].
    intros element_def parent remaining_size depth rng Hn Hr Hd.
    unfold _create_element. rewrite (fuel_for_succ depth Hd), walk_unfold.
    destruct ((remaining_size <=? 0) || (depth >? 100)) eqn:G.
    { apply orb_true_iff in G. lia. }
    now rewrite Hn, Hs.
Qed.
End ClaimsOnWalker.

(** ** Generating a document *)

Section ClaimsOnGenerate.
Variable valid_tag : string -> bool.

(** A target below one element's overhead on a container root: the walker
    raises, and so does [generate]. *)
Lemma generate_container_small_target (self : XMLGenerator)
      (target_size_bytes : Z) (rng : Random) (name : string) :
  0 < target_size_bytes < AVERAGE_ELEMENT_OVERHEAD ->
  get (root_element self) "name" = Some name ->
  count ":" name = O ->
  valid_tag name = true ->
  truthy (get (root_element self) "type") = false ->
  generate valid_tag self target_size_bytes rng = Some (Raise EmptyRange, rng).
Proof.
  intros Hs Hn Hc Hv Ht. unfold generate. rewrite Hn, Hv. cbn [negb]. cbv zeta.
  unfold _create_element. rewrite (fuel_for_succ 0) by lia.
  erewrite walk_container_small_budget; eauto; try lia.
  now apply strip_prefix_no_colon.
Qed.

(** C1: on the schema <xs:element name="Root"><xs:complexType/></xs:element>
    and the target size 10 the generator is constructed, and [generate]
    raises for every random source: the range of the number of children,
    1 .. min(5, 10 // 50), is empty. *)
Theorem C1_small_target_raises (rng : Random) :
  __init__ complex_schema = Return (mkXMLGenerator complex_schema complex_root)
  /\ exists e,
      generate valid_tag (mkXMLGenerator complex_schema complex_root) 10 rng
      = Some (Raise e, rng)
      /\ (valid_tag "Root" = true -> e = EmptyRange).
Proof.
  split; [reflexivity|].
  destruct (valid_tag "Root") eqn:V.
  - exists EmptyRange. split; [|reflexivity].
    apply generate_container_small_target with (name := "Root");
      try reflexivity; try assumption. unfold AVERAGE_ELEMENT_OVERHEAD. lia.
  - exists InvalidTag. split; [|discriminate].
    unfold generate. cbn [root_element complex_root element_def_of get attrib lookup].
    cbn. now rewrite V.
Qed.

(** C5: for the target size 0 the document is the root node alone, without
    children and without text: the one call of the walker stops at the
    guard.  (The root node is made when lxml accepts the name as a tag.) *)
Theorem C5_zero_target_bare_root
        (schema : Element) (self : XMLGenerator) (rng : Random) :
  __init__ schema = Return self ->
  exists name,
    get (root_element self) "name" = Some name
    /\ (valid_tag name = true ->
        generate valid_tag self 0 rng = Some (Return (mkElement name [] None []), rng))
    /\ (valid_tag name = false ->
        generate valid_tag self 0 rng = Some (Raise InvalidTag, rng)).
Proof.
  intros Hinit. apply init_returns in Hinit as (_ & _ & name & Hn).
  exists name. split; [exact Hn|].
  unfold generate. rewrite Hn. split; intros ->; cbn [negb]; [|reflexivity].
  cbv zeta. unfold _create_element. rewrite walk_guard by lia. reflexivity.
Qed.

(** C6: when [generate] returns a document for a positive target size, the
    root node has exactly one child, and that child carries the root
    definition's name with the prefix stripped: the root's own name when
    it has no colon. *)
Theorem C6_root_nests_copy
        (schema : Element) (self : XMLGenerator) (target_size_bytes : Z)
        (rng : Random) (doc : Element) (rng' : Random) :
  __init__ schema = Return self ->
  0 < target_size_bytes ->
  generate valid_tag self target_size_bytes rng = Some (Return doc, rng') ->
  exists name local child,
    get (root_element self) "name" = Some name
    /\ strip_prefix name = Return local
    /\ tag doc = name
    /\ text doc = None
    /\ children doc = [child]
    /\ tag child = local
    /\ (contains ":" name = false -> tag child = tag doc).
Proof.
  intros _ Hs. unfold generate.
  destruct (get (root_element self) "name") as [name|] eqn:Hn; [|discriminate].
  destruct (negb (valid_tag name)); [discriminate|]. cbv zeta.
  unfold _create_element.
  destruct (walk _ _ _ _ _ _ _) as [[[size_used|e] [root' r']]|] eqn:W;
    try discriminate.
  intros [= <- <-].
  apply walk_creates in W as (name' & local & e & Hn' & Hst & _ & -> & Ht); try lia.
  rewrite Hn in Hn'. injection Hn' as <-.
  exists name, local, e. cbn. repeat split; auto.
  intros Hc. unfold strip_prefix in Hst. rewrite Hc in Hst. congruence.
Qed.
End ClaimsOnGenerate.

(** ** The claims on sample inputs *)

Lemma C3_guard_witness :
  _create_element plain_tag complex_root (empty_node "Root") 0 0 (constant 0)
  = Some (Return 0, (empty_node "Root", constant 0)).
Proof.
  exact (proj1 (C3_guard_bounds_walk plain_tag complex_root (empty_node "Root")
                                     0 0 (constant 0))
               (or_introl (Z.le_refl 0))).
Defined.

(** The specification's split fails on a run of the code: the container
    named by 47 letters (own size 99) with 199 bytes and two children hands
    its second child (199 - 198) // 2 = 0, not (199 - 198) // (2 - 1) = 1. *)
Lemma C2_counterexample :
  fst (randint DEFAULT_MIN_CHILDREN
               (Z.min DEFAULT_MAX_CHILDREN (199 / AVERAGE_ELEMENT_OVERHEAD))
               (first 1 (constant 0))) = Return 2
  /\ exists c,
      option_map snd
        (_create_element_calls plain_tag (element_def_of name47 None [])
                               (empty_node "doc") 199 0 (first 1 (constant 0)))
      = Some c
      /\ map call_budget (subcalls c) = [50; 0]
      /\ map call_outcome (subcalls c) = [Return 99; Return 0]
      /\ ~ budgets_follow (spec_budget 199 2) 0 (len name47 * 2 + 5) (subcalls c).
Proof.
  split; [reflexivity|].
  eexists. split; [vm_compute; reflexivity|].
  split; [reflexivity|]. split; [reflexivity|].
  cbn. intros (_ & H & _). vm_compute in H. discriminate H.
Qed.

Lemma C2_budget_witness :
  exists o st c,
    _create_element_calls plain_tag (element_def_of name47 None [])
                          (empty_node "doc") 199 0 (first 1 (constant 0))
    = Some (o, st, c)
    /\ budgets_follow (code_budget 199 2) 0 (len name47 * 2 + 5) (subcalls c).
Proof.
  do 3 eexists. split; [reflexivity|].
  refine (proj1 (C2_budget_divides_by_total_count
                   plain_tag (element_def_of name47 None []) (empty_node "doc")
                   199 0 (first 1 (constant 0)) name47 name47 2 _ _ _ _
                   _ _ eq_refl eq_refl eq_refl eq_refl eq_refl eq_refl)); lia.
Defined.

(** A child budget below zero: the container named by 30 letters (own size
    65) with 50 bytes hands its only child (50 - 65) // 1 = -15. *)
Lemma C4_counterexample :
  exists c sub,
    option_map snd
      (_create_element_calls plain_tag (element_def_of name30 None [])
                             (empty_node "doc") 50 0 (constant 0))
    = Some c
    /\ subcalls c = [sub]
    /\ call_budget sub = -15
    /\ ~ 0 <= call_budget sub.
Proof.
  do 2 eexists. split; [vm_compute; reflexivity|].
  split; [reflexivity|]. split; [reflexivity|]. cbn. lia.
Qed.

Lemma C4_stops_witness :
  exists o st c,
    _create_element_calls plain_tag (element_def_of name30 None [])
                          (empty_node "doc") 50 0 (constant 0)
    = Some (o, st, c)
    /\ Forall (fun c' => call_budget c' <= 0 -> stopped c') (all_calls c).
Proof.
  do 3 eexists. split; [reflexivity|].
  exact (proj1 (C4_nonpositive_budget_stops
                  plain_tag (element_def_of name30 None []) (empty_node "doc")
                  50 0 (constant 0) _ _ _ eq_refl)).
Defined.

Lemma C5_zero_target_witness :
  generate plain_tag (mkXMLGenerator complex_schema complex_root) 0 (constant 0)
  = Some (Return (empty_node "Root"), constant 0).
Proof.
  destruct (C5_zero_target_bare_root plain_tag complex_schema
              (mkXMLGenerator complex_schema complex_root) (constant 0) eq_refl)
    as (name & Hn & Hgen & _).
  cbn in Hn. injection Hn as <-. exact (Hgen eq_refl).
Defined.

Lemma C6_root_nests_witness :
  exists doc child,
    option_map fst
      (generate plain_tag (mkXMLGenerator annotated_schema annotated_root) 10 (constant 0))
    = Some (Return doc)
    /\ children doc = [child] /\ tag child = tag doc.
Proof.
  destruct (C6_root_nests_copy plain_tag annotated_schema
              (mkXMLGenerator annotated_schema annotated_root) 10 (constant 0)
              _ _ eq_refl ltac:(lia) eq_refl)
    as (name & local & child & Hn & _ & _ & _ & Hc & _ & Ht).
  cbn in Hn. injection Hn as <-.
  eexists; exists child. split; [reflexivity|]. split; [exact Hc|].
  apply Ht. reflexivity.
Defined.

(** The walker on a name with two colons, stopped by the guard: it returns
    0 and raises nothing. *)
Lemma C10_counterexample :
  count ":" "a:b:c" = 2%nat
  /\ option_map fst
       (_create_element plain_tag (element_def_of "a:b:c" None [])
                        (empty_node "doc") 0 0 (constant 0))
     = Some (Return 0).
Proof. split; reflexivity. Qed.

Lemma C10_many_colons_witness :
  _create_element plain_tag (element_def_of "a:b:c" None [])
                  (empty_node "doc") 10 0 (constant 0)
  = Some (Raise UnpackError, (empty_node "doc", constant 0)).
Proof.
  refine (proj2 (proj2 (C10_many_colons_raise_past_guard plain_tag "a:b:c") _)
                (element_def_of "a:b:c" None []) (empty_node "doc") 10 0 (constant 0)
                eq_refl _ _); cbn; lia.
Defined.

(** * Further properties of the generator *)

(** ** Leaf values *)

(** X1: the string generator never raises and returns exactly the number of
    characters asked for (20 without an argument, none for a negative
    length), each taken from the letters, the digits and the space. *)
Theorem X1_generate_string_length (length : option Z) (rng : Random) :
  exists s rng',
    _generate_string length rng = (Return s, rng')
    /\ len s = Z.max 0 (match length with Some l => l | None => DEFAULT_STRING_LENGTH end)
    /\ Forall (fun c => In c chars) (list_ascii_of_string s).
Proof.
  unfold _generate_string.
  destruct (join_choices_spec
              (Z.to_nat match length with Some l => l | None => DEFAULT_STRING_LENGTH end)
              rng) as (s & rng' & E & Hl & Hall).
  exists s, rng'. split; [exact E|split; [|exact Hall]].
  unfold len. rewrite Hl. lia.
Qed.

Lemma str_is_string_of_int (n : Z) : str n = NilZero.string_of_int (Z.to_int n).
Proof. destruct n; reflexivity. Qed.

Lemma parse_int_str (n : Z) : parse_int (str n) = Some n.
Proof.
  unfold parse_int. rewrite str_is_string_of_int.
  rewrite NilZero.isi.
  - cbn. now rewrite DecimalZ.of_to.
  - destruct n; cbn; try discriminate.
    intros [= H]. now apply DecimalPos.Unsigned.to_uint_nonnil in H.
  - destruct n; cbn; try discriminate.
    intros [= H]. now apply DecimalPos.Unsigned.to_uint_nonnil in H.
Qed.

(** X2: the integer generator never raises; its result is the decimal
    writing of an integer between -1000000 and 1000000 and reads back as
    that integer. *)
Theorem X2_generate_integer_reads_back (rng : Random) :
  exists s rng' n,
    _generate_integer rng = (Return s, rng')
    /\ parse_int s = Some n
    /\ -1000000 <= n <= 1000000.
Proof.
  destruct (randint_in_range (-1000000) 1000000 rng ltac:(lia)) as (n & E & Hn).
  exists (str n), (snd (draw rng)), n.
  split; [|split; [apply parse_int_str|exact Hn]].
  unfold _generate_integer, bind. now rewrite E.
Qed.

(** X4: the boolean generator never raises and returns one of the two
    tokens true and false; each of them for some random source. *)
Theorem X4_generate_boolean_tokens :
  (forall rng, exists s rng',
      _generate_boolean rng = (Return s, rng') /\ (s = "true" \/ s = "false"))
  /\ fst (_generate_boolean (constant 0)) = Return "true"
  /\ fst (_generate_boolean (constant 1)) = Return "false".
Proof.
  split; [|split; reflexivity].
  intros rng. unfold _generate_boolean.
  destruct (choice_in ["true"; "false"] rng ltac:(discriminate)) as (s & E & Hin).
  exists s, (snd (draw rng)). split; [exact E|].
  destruct Hin as [<-|[<-|[]]]; auto.
Qed.

Lemma generate_date_returns (rng : Random) :
  exists year month day,
    _generate_date rng
    = (Return (date_of year month day), snd (draw (snd (draw (snd (draw rng))))))
    /\ 1900 <= year <= 2100 /\ 1 <= month <= 12 /\ 1 <= day <= 28.
Proof.
  destruct (randint_in_range 1900 2100 rng ltac:(lia)) as (y & Ey & Hy).
  destruct (randint_in_range 1 12 (snd (draw rng)) ltac:(lia)) as (m & Em & Hm).
  destruct (randint_in_range 1 28 (snd (draw (snd (draw rng)))) ltac:(lia))
    as (d & Ed & Hd).
  exists y, m, d. split; [|auto].
  unfold _generate_date.
  unfold bind at 1. rewrite Ey.
  unfold bind at 1. rewrite Em.
  unfold bind at 1. rewrite Ed.
  reflexivity.
Qed.

Lemma parse_date_shape (s : string) (r : Z * Z * Z) :
  parse_date s = Some r ->
  exists c1 c2 c3 c4 c5 c6 c7 c8 c9 c10,
    s = string_of_list_ascii [c1; c2; c3; c4; c5; c6; c7; c8; c9; c10].
Proof.
  unfold parse_date. intros H.
  rewrite <- (string_of_list_ascii_of_string s).
  destruct (list_ascii_of_string s)
    as [|c1 [|c2 [|c3 [|c4 [|c5 [|c6 [|c7 [|c8 [|c9 [|c10 [|c11 l]]]]]]]]]]];
    try discriminate.
  now exists c1, c2, c3, c4, c5, c6, c7, c8, c9, c10.
Qed.

Lemma two_digits_all :
  forallb two_digits_read_back (zrange 0 60) = true.
Proof. vm_compute. reflexivity. Qed.

Lemma two_digits (h : Z) :
  0 <= h <= 59 ->
  exists a b, format_0d 2 h = String a (String b EmptyString) /\ number2 a b = Some h.
Proof.
  intros Hh. pose proof two_digits_all as H. rewrite forallb_forall in H.
  specialize (H h (zrange_In 0 60 h ltac:(lia))).
  unfold two_digits_read_back in H.
  destruct (format_0d 2 h) as [|a [|b [|c s]]]; try discriminate.
  destruct (number2 a b) as [x|] eqn:N; [|discriminate].
  apply Z.eqb_eq in H. subst x. now exists a, b.
Qed.

(** X3: the date-time generator never raises; its result has the form
    YYYY-MM-DDTHH:MM:SSZ with the date in the ranges of the date generator,
    the hour in 0..23, the minute and the second in 0..59. *)
Theorem X3_generate_datetime_form (rng : Random) :
  exists s rng' year month day hour minute second,
    _generate_datetime rng = (Return s, rng')
    /\ parse_datetime s = Some (year, month, day, hour, minute, second)
    /\ 1900 <= year <= 2100 /\ 1 <= month <= 12 /\ 1 <= day <= 28
    /\ 0 <= hour <= 23 /\ 0 <= minute <= 59 /\ 0 <= second <= 59.
Proof.
  destruct (generate_date_returns rng) as (y & mo & d & Edate & Hy & Hmo & Hd).
  set (rng3 := snd (draw (snd (draw (snd (draw rng)))))) in *.
  destruct (randint_in_range 0 23 rng3 ltac:(lia)) as (h & Eh & Hh).
  destruct (randint_in_range 0 59 (snd (draw rng3)) ltac:(lia)) as (mi & Emi & Hmi).
  destruct (randint_in_range 0 59 (snd (draw (snd (draw rng3)))) ltac:(lia))
    as (se & Ese & Hse).
  pose proof (date_of_parses y mo d Hy Hmo Hd) as Hparse.
  destruct (parse_date_shape _ _ Hparse)
    as (c1 & c2 & c3 & c4 & c5 & c6 & c7 & c8 & c9 & c10 & Hshape).
  destruct (two_digits h ltac:(lia)) as (h1 & h2 & Hhs & Hhn).
  destruct (two_digits mi Hmi) as (m1 & m2 & Hms & Hmn).
  destruct (two_digits se Hse) as (s1 & s2 & Hss & Hsn).
  eexists _, _, y, mo, d, h, mi, se. split; [|split; [|repeat split; lia]].
  - unfold _generate_datetime.
    unfold bind at 1. rewrite Edate.
    unfold bind at 1. rewrite Eh.
    unfold bind at 1. rewrite Emi.
    unfold bind at 1. rewrite Ese.
    reflexivity.
  - rewrite Hshape in Hparse |- *. rewrite Hhs, Hms, Hss.
    unfold parse_datetime. cbn [string_of_list_ascii append list_ascii_of_string].
    cbn [Ascii.eqb Bool.eqb andb].
    change (parse_date (String c1 (String c2 (String c3 (String c4 (String c5
             (String c6 (String c7 (String c8 (String c9 (String c10 "")))))))))))
      with (parse_date (string_of_list_ascii [c1; c2; c3; c4; c5; c6; c7; c8; c9; c10])).
    now rewrite Hparse, Hhn, Hmn, Hsn.
Qed.

Lemma lower_char_in_lower_chars (c : ascii) :
  In c chars ->
  In (if is_upper c then ascii_of_nat (nat_of_ascii c + 32) else c) lower_chars.
Proof.
  assert (H : forallb (fun c => existsb (Ascii.eqb (if is_upper c
                                                    then ascii_of_nat (nat_of_ascii c + 32)
                                                    else c)) lower_chars) chars = true)
    by (vm_compute; reflexivity).
  rewrite forallb_forall in H. intros Hc. specialize (H c Hc).
  apply existsb_exists in H as (x & Hx & E). apply Ascii.eqb_eq in E. now subst.
Qed.

Lemma lower_keeps_length (s : string) : String.length (lower s) = String.length s.
Proof. induction s; cbn; congruence. Qed.

Lemma lower_in_lower_chars (s : string) :
  Forall (fun c => In c chars) (list_ascii_of_string s) ->
  Forall (fun c => In c lower_chars) (list_ascii_of_string (lower s)).
Proof.
  induction s as [|a s IH]; cbn [lower list_ascii_of_string]; intros H; [constructor|].
  inversion H; subst. constructor; [now apply lower_char_in_lower_chars|auto].
Qed.

(** X5: the URI generator never raises; its result is http:// followed by
    10 characters, .com/ and 15 characters, where the 25 generated
    characters are lower-case letters, digits or spaces (never a capital). *)
Theorem X5_generate_uri_shape (rng : Random) :
  exists domain path rng',
    _generate_uri rng = (Return ("http://" ++ domain ++ ".com/" ++ path), rng')
    /\ String.length domain = 10%nat /\ String.length path = 15%nat
    /\ Forall (fun c => In c lower_chars) (list_ascii_of_string domain)
    /\ Forall (fun c => In c lower_chars) (list_ascii_of_string path).
Proof.
  destruct (join_choices_spec 10 rng) as (d & rng1 & Ed & Ld & Hd).
  destruct (join_choices_spec 15 rng1) as (p & rng2 & Ep & Lp & Hp).
  exists (lower d), (lower p), rng2.
  split; [|rewrite !lower_keeps_length; auto using lower_in_lower_chars].
  unfold _generate_uri, _generate_string.
  unfold bind at 1. change (Z.to_nat 10) with 10%nat. rewrite Ed.
  unfold bind at 1. change (Z.to_nat 15) with 15%nat. rewrite Ep.
  reflexivity.
Qed.

(** ** Dispatch on the type name *)

Lemma split_not_nil (c : ascii) (s : string) : split c s <> [].
Proof.
  intros H. pose proof (split_length c s) as L. now rewrite H in L.
Qed.

Lemma last_cons_not_nil {A} (x d : A) (l : list A) :
  l <> [] -> last (x :: l) d = last l d.
Proof. destruct l; [congruence|reflexivity]. Qed.

Lemma last_split_prefixed (c : ascii) (prefix t d : string) :
  last (split c (prefix ++ String c t)) d = last (split c t) d.
Proof.
  induction prefix as [|a p IH]; cbn [append split].
  - rewrite Ascii.eqb_refl. apply last_cons_not_nil, split_not_nil.
  - destruct (Ascii.eqb a c).
    + rewrite last_cons_not_nil by apply split_not_nil. exact IH.
    + destruct (split c (p ++ String c t)) as [|part parts] eqn:E.
      * now apply split_not_nil in E.
      * destruct parts as [|q parts].
        -- exfalso. pose proof (split_length c (p ++ String c t)) as L.
           rewrite E in L. cbn in L.
           assert (Hc : (1 <= count c (p ++ String c t))%nat).
           { clear. induction p as [|b p IHp]; cbn.
             - rewrite Ascii.eqb_refl. lia.
             - lia. }
           lia.
        -- rewrite <- IH. reflexivity.
Qed.

(** X6: the generator of an element's content is chosen by the part of the
    type name after its last colon only: a type name with any prefix put in
    front gets the same generator as the type name itself. *)
Theorem X6_type_prefix_ignored
        (element1 element2 : Element) (prefix type_name : string) (depth1 depth2 : Z) :
  get element1 "type" = Some (prefix ++ ":" ++ type_name) ->
  get element2 "type" = Some type_name ->
  _generate_element_content element1 depth1 = _generate_element_content element2 depth2.
Proof.
  intros H1 H2. unfold _generate_element_content. rewrite H1, H2.
  unfold base_type_of. cbn [append]. now rewrite last_split_prefixed.
Qed.

Lemma X6_type_prefix_witness :
  _generate_element_content (element_def_of "e" (Some "xs:date") []) 0
  = _generate_element_content (element_def_of "e" (Some "date") []) 0.
Proof.
  exact (X6_type_prefix_ignored (element_def_of "e" (Some "xs:date") [])
                                (element_def_of "e" (Some "date") [])
                                "xs" "date" 0 0 eq_refl eq_refl).
Defined.

Lemma never_raises_ret {A} (a : A) : never_raises (ret a).
Proof. intros rng. now exists a, rng. Qed.

Lemma never_raises_bind {A B} (m : Gen A) (k : A -> Gen B) :
  never_raises m -> (forall a, never_raises (k a)) -> never_raises (bind m k).
Proof.
  intros Hm Hk rng. destruct (Hm rng) as (a & rng1 & E).
  destruct (Hk a rng1) as (b & rng2 & E2).
  exists b, rng2. unfold bind. now rewrite E.
Qed.

Lemma never_raises_randint (a b : Z) : a <= b -> never_raises (randint a b).
Proof.
  intros H rng. destruct (randint_in_range a b rng H) as (x & E & _). eauto.
Qed.

Lemma never_raises_choice {A} (seq : list A) : seq <> [] -> never_raises (choice seq).
Proof.
  intros H rng. destruct (choice_in seq rng H) as (x & E & _). eauto.
Qed.

Lemma never_raises_join_choices (n : nat) : never_raises (join_choices n).
Proof.
  intros rng. destruct (join_choices_spec n rng) as (s & rng' & E & _). eauto.
Qed.

Lemma type_generators_never_raise :
  Forall never_raises (map snd type_generators).
Proof.
  repeat constructor.
  - apply never_raises_join_choices.
  - apply never_raises_bind; [apply never_raises_randint; lia|].
    intros n. apply never_raises_ret.
  - apply never_raises_bind; [apply never_raises_randint; lia|].
    intros h. apply never_raises_ret.
  - intros rng. destruct (generate_date_returns rng) as (y & m & d & E & _). eauto.
  - apply never_raises_bind.
    { intros rng. destruct (generate_date_returns rng) as (y & m & d & E & _). eauto. }
    intros date. apply never_raises_bind; [apply never_raises_randint; lia|].
    intros h. apply never_raises_bind; [apply never_raises_randint; lia|].
    intros mi. apply never_raises_bind; [apply never_raises_randint; lia|].
    intros se. apply never_raises_ret.
  - apply never_raises_choice. discriminate.
  - apply never_raises_bind; [apply never_raises_join_choices|].
    intros domain. apply never_raises_bind; [apply never_raises_join_choices|].
    intros path. apply never_raises_ret.
Qed.

Lemma dict_get_cases {V} (d : list (string * V)) (key : string) (default : V) :
  dict_get d key default = default \/ In (dict_get d key default) (map snd d).
Proof.
  induction d as [|[k v] d IH]; cbn; [now left|].
  destruct (String.eqb k key); [right; now left|].
  destruct IH as [->|H]; [now left|right; now right].
Qed.

Lemma generate_element_content_never_raises (element : Element) (depth : Z) :
  never_raises (_generate_element_content element depth).
Proof.
  unfold _generate_element_content.
  destruct (dict_get_cases type_generators
              (base_type_of match get element "type" with
                            | Some t => t
                            | None => "string"
                            end) (_generate_string None)) as [->|Hin].
  - apply never_raises_join_choices.
  - pose proof type_generators_never_raise as H.
    rewrite Forall_forall in H. now apply H.
Qed.

(** X7: generating the content of an element never raises, whatever its
    type attribute and the random source; an element without a type
    attribute gets the string generator. *)
Theorem X7_element_content_never_raises (element : Element) (depth : Z) (rng : Random) :
  (exists content rng', _generate_element_content element depth rng = (Return content, rng'))
  /\ (get element "type" = None ->
      _generate_element_content element depth rng = _generate_string None rng).
Proof.
  split.
  - apply generate_element_content_never_raises.
  - intros H. unfold _generate_element_content. now rewrite H.
Qed.

Lemma X7_element_content_witness :
  _generate_element_content (element_def_of "e" None []) 0 (constant 0)
  = _generate_string None (constant 0).
Proof.
  exact (proj2 (X7_element_content_never_raises (element_def_of "e" None []) 0 (constant 0))
               eq_refl).
Defined.

(** ** More on the loop over the children *)

Section LoopMeasures.
Context {X : Type}.
Variable child : X -> Z -> option (outcome Z * X).
Variables remaining_size children_count : Z.

(** An invariant that links the running size to the state holds of the
    total a completed loop returns. *)
Lemma children_loop_sized (I : Z -> X -> Prop) :
  (forall size_used x b child_size x',
      I size_used x -> child x b = Some (Return child_size, x') ->
      I (size_used + child_size) x') ->
  forall iters size_used x total x',
    I size_used x ->
    children_loop child remaining_size children_count iters size_used x
    = Some (Return total, x') ->
    I total x'.
Proof.
  intros Hchild. induction iters as [|iters IH]; intros size_used x total x' Hx; cbn.
  - intros [= <- <-]. exact Hx.
  - destruct (child x _) as [[[child_size|e] x1]|] eqn:E; try discriminate.
    apply IH. eapply Hchild; eauto.
Qed.

(** A measure that a call raises by at most one is raised by at most the
    number of iterations. *)
Lemma children_loop_grows (m : X -> nat) :
  (forall x b o x', child x b = Some (o, x') -> (m x' <= S (m x))%nat) ->
  forall iters size_used x o x',
    children_loop child remaining_size children_count iters size_used x = Some (o, x') ->
    (m x' <= m x + iters)%nat.
Proof.
  intros Hchild. induction iters as [|iters IH]; intros size_used x o x'; cbn.
  - intros [= _ <-]. lia.
  - destruct (child x _) as [[[child_size|e] x1]|] eqn:E; try discriminate.
    + intros L. apply IH in L. apply Hchild in E. lia.
    + intros [= _ <-]. apply Hchild in E. lia.
Qed.
End LoopMeasures.

(** ** Size accounting and shape of the generated tree *)

Lemma accounted_size_eq (e : Element) :
  accounted_size e
  = len (tag e) * 2 + 5
    + match text e with Some c => len c | None => 0 end
    + fold_right (fun c acc => accounted_size c + acc) 0 (children e).
Proof. destruct e; reflexivity. Qed.

Lemma accounted_size_append (parent child : Element) :
  accounted_size (append_child parent child)
  = accounted_size parent + accounted_size child.
Proof.
  rewrite (accounted_size_eq (append_child parent child)), (accounted_size_eq parent).
  cbn [append_child tag attrib text children].
  assert (E : forall cs,
             fold_right (fun c acc => accounted_size c + acc) 0 (cs ++ [child])
             = fold_right (fun c acc => accounted_size c + acc) 0 cs
               + accounted_size child).
  { induction cs as [|c cs IH]; cbn [fold_right app]; [lia|]. rewrite IH. lia. }
  rewrite E. lia.
Qed.

Lemma iter_eq (e : Element) : iter e = e :: flat_map iter (children e).
Proof. destruct e; reflexivity. Qed.

Lemma len_nonneg (s : string) : 0 <= len s.
Proof. unfold len. lia. Qed.

Section ShapeFacts.
Variable valid_tag : string -> bool.

(** What a returning call reports is what it appended, node by node. *)
Lemma walk_accounts fuel :
  forall element_def parent remaining_size depth rng size_used parent' rng',
    walk valid_tag fuel element_def parent remaining_size depth rng
    = Some (Return size_used, (parent', rng')) ->
    (size_used = 0 /\ parent' = parent)
    \/ exists e, parent' = append_child parent e
                 /\ size_used = accounted_size e /\ 5 <= size_used.
Proof.
  induction fuel as [|fuel IH];
    intros element_def parent remaining_size depth rng size_used parent' rng';
    rewrite walk_unfold;
    destruct ((remaining_size <=? 0) || (depth >? 100)) eqn:G;
    try (intros [= <- <- _]; now left); try discriminate.
  destruct (get element_def "name") as [name|]; [|discriminate].
  destruct (strip_prefix name) as [local|e]; [|discriminate].
  destruct (negb (valid_tag local)); [discriminate|].
  cbv zeta. pose proof (len_nonneg local) as Hlocal.
  destruct (truthy (get element_def "type")).
  - destruct (_generate_element_content element_def depth rng) as [[content|e] rng1];
      [|discriminate].
    intros [= <- <- _]. right. eexists. split; [reflexivity|].
    pose proof (len_nonneg content). rewrite accounted_size_eq.
    cbn [set_text tag text children fold_right]. lia.
  - destruct (randint _ _ rng) as [[children_count|e] rng1]; [|discriminate].
    match goal with
    | |- context [children_loop ?c ?r ?n ?i ?u ?st] =>
        destruct (children_loop c r n i u st) as [[o1 [element' rng2]]|] eqn:L;
          [|discriminate];
        pose proof (children_loop_sized c r n
                      (fun used x => used = accounted_size (fst x) /\ 5 <= used)) as Inv
    end.
    intros [= -> <- _]. right. exists element'. split; [reflexivity|].
    eapply Inv with (size_used := len local * 2 + 5)
                    (x := (mkElement local [] None [], rng1)) (x' := (element', rng2));
      [|cbn [fst]; rewrite accounted_size_eq; cbn [tag text children fold_right]; lia
       |exact L].
    intros used [el r] b child_size [el' r'] [Hu H5] E. cbn [fst] in *.
    apply IH in E as [[-> ->]|(e & -> & -> & He)].
    + split; lia.
    + rewrite accounted_size_append. split; lia.
Qed.

(** No node that a call appends has more than five children. *)
Lemma walk_fanout fuel :
  forall element_def parent remaining_size depth rng o parent' rng',
    walk valid_tag fuel element_def parent remaining_size depth rng
    = Some (o, (parent', rng')) ->
    parent' = parent
    \/ exists e, parent' = append_child parent e /\ fanout_bounded e.
Proof.
  assert (Leaf : forall name content,
             fanout_bounded (mkElement name [] content [])).
  { intros name content. unfold fanout_bounded. cbn.
    constructor; [cbn; unfold DEFAULT_MAX_CHILDREN; lia|constructor]. }
  induction fuel as [|fuel IH];
    intros element_def parent remaining_size depth rng o parent' rng';
    rewrite walk_unfold;
    destruct ((remaining_size <=? 0) || (depth >? 100)) eqn:G;
    try (intros [= _ <- _]; now left); try discriminate.
  destruct (get element_def "name") as [name|]; [|intros [= _ <- _]; now left].
  destruct (strip_prefix name) as [local|e]; [|intros [= _ <- _]; now left].
  destruct (negb (valid_tag local)); [intros [= _ <- _]; now left|].
  cbv zeta. intros H. right.
  destruct (truthy (get element_def "type")).
  - destruct (_generate_element_content element_def depth rng) as [[content|e] rng1];
      injection H as _ <- _; eexists; (split; [reflexivity|apply Leaf]).
  - destruct (randint _ _ rng) as [[children_count|e] rng1] eqn:R;
      [|injection H as _ <- _; eexists; (split; [reflexivity|apply Leaf])].
    apply randint_returns in R.
    match type of H with
    | context [children_loop ?c ?r ?n ?i ?u ?st] =>
        destruct (children_loop c r n i u st) as [[o1 [element' rng2]]|] eqn:L;
          [|discriminate];
        pose proof (children_loop_invariant c r n
                      (fun x => Forall fanout_bounded (children (fst x)))) as Inv;
        pose proof (children_loop_grows c r n
                      (fun x => List.length (children (fst x)))) as Grow
    end.
    injection H as _ <- _. exists element'. split; [reflexivity|].
    assert (Hstep : forall (x : State) b o2 (x' : State),
               (fun '(el, r) budget =>
                  walk valid_tag fuel element_def el budget (depth + 1) r) x b
               = Some (o2, x') ->
               fst x' = fst x
               \/ exists e, fst x' = append_child (fst x) e /\ fanout_bounded e).
    { intros [el r] b o2 [el' r'] E. cbn [fst]. now apply IH in E. }
    assert (Hall : Forall fanout_bounded (children element')).
    { eapply Inv with (x := (mkElement local [] None [], rng1)) (x' := (element', rng2));
        [|constructor|exact L].
      intros x b o2 x' Hx E. apply Hstep in E as [->|(e & -> & He)]; [exact Hx|].
      cbn. apply Forall_app. split; [exact Hx|now constructor]. }
    assert (Hlen : (List.length (children element') <= Z.to_nat children_count)%nat).
    { eapply (Grow) with (x := (mkElement local [] None [], rng1)) in L.
      - cbn in L. exact L.
      - intros x b o2 x' E. apply Hstep in E as [->|(e & -> & _)]; [lia|].
        cbn. rewrite length_app. cbn. lia. }
    unfold fanout_bounded. rewrite iter_eq. constructor.
    + unfold DEFAULT_MIN_CHILDREN, DEFAULT_MAX_CHILDREN in *. lia.
    + clear -Hall. induction Hall as [|c l Hc _ IHl]; cbn; [constructor|].
      apply Forall_app. split; assumption.
Qed.
End ShapeFacts.

Lemma child_budget_below (remaining_size size_used children_count : Z) :
  1 <= children_count -> 4 <= remaining_size -> 5 <= size_used ->
  child_budget remaining_size size_used children_count <= remaining_size - 5.
Proof.
  intros Hn Hr Hu. unfold child_budget.
  destruct (Z_lt_le_dec (remaining_size - size_used) 0) as [Hneg|Hpos].
  - assert ((remaining_size - size_used) / children_count < 0)
      by (apply Z.div_lt_upper_bound; lia). lia.
  - assert ((remaining_size - size_used) / children_count <= remaining_size - size_used)
      by (apply Z.div_le_upper_bound; nia). lia.
Qed.

Lemma budgets_bounded (remaining_size children_count : Z) :
  1 <= children_count -> 4 <= remaining_size ->
  forall calls i size_used,
    5 <= size_used ->
    budgets_follow (code_budget remaining_size children_count) i size_used calls ->
    Forall (fun c => forall sz, call_outcome c = Return sz -> 0 <= sz) calls ->
    Forall (fun sub => call_budget sub <= remaining_size - 5) calls.
Proof.
  intros Hn Hr. induction calls as [|c cs IH]; intros i size_used Hu Hb Hall;
    [constructor|].
  cbn in Hb. destruct Hb as [Hb Hrest]. inversion Hall as [|? ? Hc Hcs]; subst.
  constructor.
  - rewrite Hb. now apply child_budget_below.
  - destruct (call_outcome c) as [sz|e].
    + apply (IH (i + 1) (size_used + sz)); auto. specialize (Hc sz eq_refl). lia.
    + subst cs. constructor.
Qed.

Lemma returned_total_nonneg (calls : list Call) :
  Forall (fun c => forall sz, call_outcome c = Return sz -> 0 <= sz) calls ->
  0 <= returned_total calls.
Proof.
  unfold returned_total. induction 1 as [|c cs Hc _ IH]; cbn; [lia|].
  destruct (call_outcome c) as [sz|e]; [specialize (Hc sz eq_refl)|]; lia.
Qed.

Section DescentFacts.
Variable valid_tag : string -> bool.

(** Down the tree of calls the budget shrinks by at least 5 a level, and
    no call returns a negative size. *)
Lemma walk_calls_descend fuel :
  forall element_def parent remaining_size depth rng o st c,
    walk_calls valid_tag fuel element_def parent remaining_size depth rng
    = Some (o, st, c) ->
    (forall sz, o = Return sz -> 0 <= sz) /\ Forall descends (all_calls c).
Proof.
  assert (Leaf : forall depth remaining_size o,
             Forall descends (all_calls (mkCall depth remaining_size o []))).
  { intros. cbn. constructor; [constructor|constructor]. }
  induction fuel as [|fuel IH];
    intros element_def parent remaining_size depth rng o st c;
    cbn [walk_calls];
    destruct ((remaining_size <=? 0) || (depth >? 100)) eqn:G;
    try (intros [= <- _ <-]; split; [intros sz [= <-]; lia|apply Leaf]);
    try discriminate.
  apply guard_false in G as [Hr Hd].
  destruct (get element_def "name") as [name|];
    [|intros [= <- _ <-]; split; [discriminate|apply Leaf]].
  destruct (strip_prefix name) as [local|e];
    [|intros [= <- _ <-]; split; [discriminate|apply Leaf]].
  destruct (negb (valid_tag local));
    [intros [= <- _ <-]; split; [discriminate|apply Leaf]|].
  cbv zeta. pose proof (len_nonneg local) as Hlocal.
  destruct (truthy (get element_def "type")).
  - destruct (_generate_element_content element_def depth rng) as [[content|e] rng1];
      intros [= <- _ <-]; (split; [|apply Leaf]); [|discriminate].
    intros sz [= <-]. pose proof (len_nonneg content). lia.
  - destruct (randint _ _ rng) as [[children_count|e] rng1] eqn:R;
      [|intros [= <- _ <-]; split; [discriminate|apply Leaf]].
    apply randint_returns in R.
    assert (Hn : 1 <= children_count /\ 50 <= remaining_size).
    { unfold DEFAULT_MIN_CHILDREN, DEFAULT_MAX_CHILDREN, AVERAGE_ELEMENT_OVERHEAD in R.
      split; [lia|].
      assert (1 <= remaining_size / 50) by lia.
      destruct (Z_lt_le_dec remaining_size 50) as [Hs|]; [|assumption].
      rewrite Z.div_small in H by lia. lia. }
    destruct Hn as [Hn Hr50].
    match goal with
    | |- context [children_loop ?ch ?r ?n ?i ?u ?s0] =>
        destruct (children_loop ch r n i u s0) as [[o1 [[el r2] log]]|] eqn:L;
          [|discriminate];
        apply (traced_loop ch r n
                 (fun sub => call_depth sub = depth + 1
                             /\ (forall sz, call_outcome sub = Return sz -> 0 <= sz)
                             /\ Forall descends (all_calls sub)))
          in L as (new & Hlog & _ & Hall & Hbud & Hend)
    end.
    + cbn in Hlog. subst log. intros [= <- _ <-].
      assert (Hnonneg : Forall (fun c => forall sz, call_outcome c = Return sz -> 0 <= sz) new).
      { eapply Forall_impl; [|exact Hall]. cbn. tauto. }
      split.
      * intros sz ->. destruct Hend as [_ ->].
        pose proof (returned_total_nonneg new Hnonneg). lia.
      * cbn. constructor.
        -- unfold descends. cbn [subcalls call_budget call_depth].
           pose proof (budgets_bounded remaining_size children_count Hn ltac:(lia)
                         new 0 (len local * 2 + 5) ltac:(lia) (Hbud 0) Hnonneg) as Hb.
           clear -Hb Hall. induction Hall as [|s l Hs _ IHl]; [constructor|].
           inversion Hb; subst. constructor; [tauto|auto].
        -- clear -Hall. induction Hall as [|s l Hs _ IHl]; cbn; [constructor|].
           apply Forall_app. split; [tauto|assumption].
    + apply (traced_child_logs valid_tag _ fuel element_def depth).
      intros p b g o' s' c' H.
      pose proof (walk_calls_head valid_tag _ _ _ _ _ _ _ _ _ H) as (Hdepth & _ & Ho).
      apply IH in H as [Hsz Hdesc]. subst o'. auto.
Qed.
End DescentFacts.

Lemma count_append (c : ascii) (a b : string) :
  count c (a ++ b) = (count c a + count c b)%nat.
Proof. induction a as [|x a IH]; cbn; [reflexivity|]. rewrite IH. lia. Qed.

Lemma split_no_separator (c : ascii) (s : string) :
  count c s = O -> split c s = [s].
Proof.
  induction s as [|a s IH]; cbn; [reflexivity|].
  destruct (Ascii.eqb a c); [discriminate|].
  intros H. now rewrite IH.
Qed.

Lemma split_at_separator (c : ascii) (p t : string) :
  count c p = O -> split c (p ++ String c t) = p :: split c t.
Proof.
  induction p as [|a p IH]; cbn.
  - now rewrite Ascii.eqb_refl.
  - destruct (Ascii.eqb a c); [discriminate|].
    intros H. now rewrite IH.
Qed.

(** X14: on a name of the form prefix:local, where neither part has a
    colon, stripping the prefix gives the local part. *)
Theorem X14_strip_prefix_keeps_local (prefix local : string) :
  count ":" prefix = O -> count ":" local = O ->
  strip_prefix (prefix ++ ":" ++ local) = Return local.
Proof.
  intros Hp Hl. unfold strip_prefix. cbn [append].
  rewrite contains_count, count_append. cbn [count].
  rewrite Ascii.eqb_refl, Hp. cbn.
  now rewrite split_at_separator, split_no_separator.
Qed.

Lemma X14_strip_prefix_witness : strip_prefix ("xs" ++ ":" ++ "Root") = Return "Root".
Proof. exact (X14_strip_prefix_keeps_local "xs" "Root" eq_refl eq_refl). Defined.


Section FurtherOnWalker.
Variable valid_tag : string -> bool.

(** X8: an element definition with a type, called with any positive
    remaining size at a depth of at most 100, always gives a node: the call
    does not raise, appends one node that carries the generated content and
    no children, and returns the length of the content plus twice the
    length of the name plus 5, however small the remaining size is. *)
Theorem X8_typed_element_ignores_budget
        (element_def parent : Element) (remaining_size depth : Z) (rng : Random)
        (name local : string) :
  0 < remaining_size -> depth <= 100 ->
  get element_def "name" = Some name ->
  strip_prefix name = Return local ->
  valid_tag local = true ->
  truthy (get element_def "type") = true ->
  exists content rng',
    _generate_element_content element_def depth rng = (Return content, rng')
    /\ _create_element valid_tag element_def parent remaining_size depth rng
       = Some (Return (len content + len local * 2 + 5),
               (append_child parent (mkElement local [] (Some content) []), rng')).
Proof.
  intros Hr Hd Hn Hs Hv Ht.
  destruct (generate_element_content_never_raises element_def depth rng)
    as (content & rng' & E).
  exists content, rng'. split; [exact E|].
  unfold _create_element. rewrite (fuel_for_succ depth Hd), walk_unfold.
  destruct ((remaining_size <=? 0) || (depth >? 100)) eqn:G.
  { apply orb_true_iff in G. lia. }
  rewrite Hn, Hs, Hv, Ht. cbn [negb]. cbv zeta. now rewrite E.
Qed.

(** X9: the size a call returns is the size accounted for the nodes it
    appended: the accounted size of the parent grows by exactly the
    returned value, which is 0 (and then nothing was appended) or at
    least 5. *)
Theorem X9_returned_size_is_accounted
        (element_def parent : Element) (remaining_size depth : Z) (rng : Random)
        (size_used : Z) (parent' : Element) (rng' : Random) :
  _create_element valid_tag element_def parent remaining_size depth rng
  = Some (Return size_used, (parent', rng')) ->
  accounted_size parent' = accounted_size parent + size_used
  /\ ((size_used = 0 /\ parent' = parent) \/ 5 <= size_used).
Proof.
  intros H. apply walk_accounts in H as [[-> ->]|(e & -> & -> & He)].
  - split; [lia|now left].
  - rewrite accounted_size_append. split; [reflexivity|now right].
Qed.

(** X11: a container (no type attribute) called with a remaining size of
    1 to 49 raises the empty-range error of randint for every random
    source, after its empty node has been appended to the parent. *)
Theorem X11_container_below_overhead_raises
        (element_def parent : Element) (remaining_size depth : Z) (rng : Random)
        (name local : string) :
  0 < remaining_size < AVERAGE_ELEMENT_OVERHEAD -> depth <= 100 ->
  get element_def "name" = Some name ->
  strip_prefix name = Return local ->
  valid_tag local = true ->
  truthy (get element_def "type") = false ->
  _create_element valid_tag element_def parent remaining_size depth rng
  = Some (Raise EmptyRange, (append_child parent (mkElement local [] None []), rng)).
Proof.
  intros Hr Hd Hn Hs Hv Ht. unfold _create_element.
  rewrite (fuel_for_succ depth Hd).
  now apply walk_container_small_budget with (name := name).
Qed.

(** X12: in the tree of calls of any walk, the calls that a call makes run
    one level deeper and on a budget at least 5 smaller than its own; a
    call never returns a negative size. *)
Theorem X12_budget_shrinks_down_the_calls
        (element_def parent : Element) (remaining_size depth : Z) (rng : Random)
        (o : outcome Z) (st : State) (c : Call) :
  _create_element_calls valid_tag element_def parent remaining_size depth rng
  = Some (o, st, c) ->
  Forall descends (all_calls c) /\ (forall sz, o = Return sz -> 0 <= sz).
Proof.
  intros H. apply walk_calls_descend in H as [Hsz Hd]. now split.
Qed.

Lemma append_child_inj (parent e1 e2 : Element) :
  append_child parent e1 = append_child parent e2 -> e1 = e2.
Proof.
  unfold append_child. intros [= H]. apply app_inv_head in H. now injection H.
Qed.

(** X10: a document that [generate] returns has the root definition's name
    on its root, at most one child under the root, no node with more than
    five children, and no more than 102 levels. *)
Theorem X10_document_shape
        (self : XMLGenerator) (target_size_bytes : Z) (rng : Random)
        (doc : Element) (rng' : Random) :
  generate valid_tag self target_size_bytes rng = Some (Return doc, rng') ->
  get (root_element self) "name" = Some (tag doc)
  /\ text doc = None
  /\ (List.length (children doc) <= 1)%nat
  /\ fanout_bounded doc
  /\ (height doc <= 102)%nat.
Proof.
  unfold generate.
  destruct (get (root_element self) "name") as [name|] eqn:Hn; [|discriminate].
  destruct (negb (valid_tag name)); [discriminate|]. cbv zeta.
  unfold _create_element.
  destruct (walk _ _ _ _ _ _ _) as [[[size_used|e] [root' r']]|] eqn:W;
    try discriminate.
  intros [= <- <-].
  assert (Bare : fanout_bounded (mkElement name [] None [])).
  { unfold fanout_bounded. cbn. constructor; [cbn; unfold DEFAULT_MAX_CHILDREN; lia|constructor]. }
  pose proof (walk_fanout _ _ _ _ _ _ _ _ _ _ W) as [->|(e & -> & Hfan)].
  - cbn. repeat split; auto; lia.
  - apply walk_extends in W as [Heq|(_ & _ & _ & _ & e' & _ & _ & Heq & _ & Hh)].
    + exfalso. apply (f_equal (fun x => List.length (children x))) in Heq.
      cbn in Heq. discriminate.
    + apply append_child_inj in Heq. subst e'.
      cbn [append_child tag text children app Datatypes.length].
      repeat split; auto.
      * unfold fanout_bounded. rewrite iter_eq.
        cbn [append_child tag attrib text children app flat_map].
        rewrite app_nil_r. constructor; [cbn; unfold DEFAULT_MAX_CHILDREN; lia|exact Hfan].
      * rewrite height_eq. cbn [append_child tag attrib text children app].
        unfold forest_height. cbn [fold_right].
        assert (fuel_for 0 = 101%nat) by reflexivity. lia.
Qed.

End FurtherOnWalker.

Lemma X8_typed_element_witness :
  exists content rng',
    _create_element plain_tag annotated_root (empty_node "doc") 1 0 (constant 0)
    = Some (Return (len content + len "Root" * 2 + 5),
            (append_child (empty_node "doc") (mkElement "Root" [] (Some content) []), rng')).
Proof.
  destruct (X8_typed_element_ignores_budget plain_tag annotated_root (empty_node "doc")
              1 0 (constant 0) "Root" "Root" ltac:(lia) ltac:(lia)
              eq_refl eq_refl eq_refl eq_refl) as (content & rng' & _ & H).
  now exists content, rng'.
Defined.

Lemma X9_returned_size_witness :
  exists size_used parent' rng',
    _create_element plain_tag (element_def_of name30 None []) (empty_node "doc")
                    50 0 (constant 0)
    = Some (Return size_used, (parent', rng'))
    /\ accounted_size parent' = accounted_size (empty_node "doc") + size_used.
Proof.
  do 3 eexists. split; [reflexivity|].
  exact (proj1 (X9_returned_size_is_accounted
                  plain_tag (element_def_of name30 None []) (empty_node "doc")
                  50 0 (constant 0) _ _ _ eq_refl)).
Defined.

Lemma X11_container_witness :
  _create_element plain_tag complex_root (empty_node "doc") 49 0 (constant 0)
  = Some (Raise EmptyRange, (append_child (empty_node "doc") (empty_node "Root"), constant 0)).
Proof.
  refine (X11_container_below_overhead_raises plain_tag complex_root (empty_node "doc")
            49 0 (constant 0) "Root" "Root" _ _ eq_refl eq_refl eq_refl eq_refl);
    unfold AVERAGE_ELEMENT_OVERHEAD; lia.
Defined.

Lemma X12_budget_shrinks_witness :
  exists o st c,
    _create_element_calls plain_tag (element_def_of name47 None []) (empty_node "doc")
                          199 0 (first 1 (constant 0))
    = Some (o, st, c)
    /\ Forall descends (all_calls c).
Proof.
  do 3 eexists. split; [reflexivity|].
  exact (proj1 (X12_budget_shrinks_down_the_calls
                  plain_tag (element_def_of name47 None []) (empty_node "doc")
                  199 0 (first 1 (constant 0)) _ _ _ eq_refl)).
Defined.

Lemma X10_document_shape_witness :
  exists doc,
    option_map fst
      (generate plain_tag (mkXMLGenerator annotated_schema annotated_root) 10 (constant 0))
    = Some (Return doc)
    /\ fanout_bounded doc /\ (height doc <= 102)%nat.
Proof.
  eexists. split; [reflexivity|].
  exact (proj2 (proj2 (proj2 (X10_document_shape
                  plain_tag (mkXMLGenerator annotated_schema annotated_root)
                  10 (constant 0) _ _ eq_refl)))).
Defined.


Section BranchingFacts.
Variable valid_tag : string -> bool.

Lemma walk_calls_branching fuel :
  forall element_def parent remaining_size depth rng o st c,
    walk_calls valid_tag fuel element_def parent remaining_size depth rng
    = Some (o, st, c) ->
    Forall branching_bounded (all_calls c).
Proof.
  assert (Leaf : forall depth remaining_size o,
             Forall branching_bounded (all_calls (mkCall depth remaining_size o []))).
  { intros. cbn. constructor; [|constructor].
    unfold branching_bounded. cbn. lia. }
  induction fuel as [|fuel IH];
    intros element_def parent remaining_size depth rng o st c;
    cbn [walk_calls];
    destruct ((remaining_size <=? 0) || (depth >? 100)) eqn:G;
    try (intros [= _ _ <-]; apply Leaf); try discriminate.
  destruct (get element_def "name") as [name|]; [|intros [= _ _ <-]; apply Leaf].
  destruct (strip_prefix name) as [local|e]; [|intros [= _ _ <-]; apply Leaf].
  destruct (negb (valid_tag local)); [intros [= _ _ <-]; apply Leaf|].
  cbv zeta.
  destruct (truthy (get element_def "type")).
  - destruct (_generate_element_content element_def depth rng) as [[content|e] rng1];
      intros [= _ _ <-]; apply Leaf.
  - destruct (randint _ _ rng) as [[children_count|e] rng1] eqn:R;
      [|intros [= _ _ <-]; apply Leaf].
    apply randint_returns in R.
    match goal with
    | |- context [children_loop ?ch ?r ?n ?i ?u ?s0] =>
        destruct (children_loop ch r n i u s0) as [[o1 [[el r2] log]]|] eqn:L;
          [|discriminate];
        apply (traced_loop ch r n
                 (fun sub => Forall branching_bounded (all_calls sub))
                 (traced_child_logs valid_tag _ fuel element_def depth
                    (fun p b g o' s' c' => IH element_def p b (depth + 1) g o' s' c')))
          in L as (new & Hlog & Hlen & Hall & _)
    end.
    cbn in Hlog. subst log. intros [= _ _ <-]. cbn.
    constructor.
    + unfold branching_bounded. cbn [subcalls call_budget].
      unfold DEFAULT_MIN_CHILDREN in R. lia.
    + clear -Hall. induction Hall as [|s l Hs _ IHl]; cbn; [constructor|].
      apply Forall_app. split; assumption.
Qed.

(** X16: in the tree of calls of any walk, no call makes more calls than
    the smaller of 5 and a fiftieth of its budget (rounded down), and a
    call with a budget below 50 makes none. *)
Theorem X16_branching_bounded_by_budget
        (element_def parent : Element) (remaining_size depth : Z) (rng : Random)
        (o : outcome Z) (st : State) (c : Call) :
  _create_element_calls valid_tag element_def parent remaining_size depth rng
  = Some (o, st, c) ->
  Forall branching_bounded (all_calls c)
  /\ Forall (fun c' => call_budget c' < AVERAGE_ELEMENT_OVERHEAD -> subcalls c' = [])
            (all_calls c).
Proof.
  intros H. apply walk_calls_branching in H. split; [exact H|].
  eapply Forall_impl; [|exact H]. intros c' Hb Hsmall.
  unfold branching_bounded, DEFAULT_MAX_CHILDREN, AVERAGE_ELEMENT_OVERHEAD in *.
  assert (call_budget c' / 50 <= 0).
  { destruct (Z_lt_le_dec (call_budget c') 0) as [Hneg|Hpos].
    - assert (call_budget c' / 50 < 0) by (apply Z.div_lt_upper_bound; lia). lia.
    - rewrite Z.div_small by lia. lia. }
  destruct (subcalls c'); [reflexivity|cbn in Hb; lia].
Qed.
End BranchingFacts.

Lemma X16_branching_witness :
  exists o st c,
    _create_element_calls plain_tag (element_def_of name47 None []) (empty_node "doc")
                          199 0 (first 1 (constant 0))
    = Some (o, st, c)
    /\ Forall branching_bounded (all_calls c).
Proof.
  do 3 eexists. split; [reflexivity|].
  exact (proj1 (X16_branching_bounded_by_budget
                  plain_tag (element_def_of name47 None []) (empty_node "doc")
                  199 0 (first 1 (constant 0)) _ _ _ eq_refl)).
Defined.

(** * Properties of the flat-record generator *)

(** ** Field generators *)

Lemma choices_spec {A} (population : list A) (k : nat) (rng : Random) :
  population <> [] ->
  exists xs rng',
    choices population k rng = (Return xs, rng')
    /\ List.length xs = k
    /\ Forall (fun x => In x population) xs.
Proof.
  intros Hne. revert rng. induction k as [|k IH]; intros rng.
  - exists [], rng. cbn. auto.
  - destruct (choice_in population rng Hne) as (x & Ex & Hin).
    destruct (IH (snd (draw rng))) as (xs & rng' & Exs & Hl & Hall).
    exists (x :: xs), rng'. split; [|split; [cbn; now rewrite Hl|now constructor]].
    cbn [choices]. unfold bind at 1. rewrite Ex.
    unfold bind at 1. now rewrite Exs.
Qed.

Lemma choices_empty {A} (k : nat) (rng : Random) :
  choices (@nil A) (S k) rng = (Raise EmptySequence, rng).
Proof. reflexivity. Qed.

Lemma length_string_of_list_ascii (l : list ascii) :
  String.length (string_of_list_ascii l) = List.length l.
Proof. induction l; cbn; congruence. Qed.

Lemma length_append (a b : string) :
  String.length (a ++ b) = (String.length a + String.length b)%nat.
Proof. induction a; cbn; congruence. Qed.

Lemma count_absent (c : ascii) (l : list ascii) :
  Forall (fun x => x <> c) l -> count c (string_of_list_ascii l) = O.
Proof.
  induction 1 as [|x l Hx _ IH]; cbn; [reflexivity|].
  destruct (Ascii.eqb x c) eqn:E; [apply Ascii.eqb_eq in E; contradiction|exact IH].
Qed.

(** X17: the product-code generator never raises; its result is three
    capital letters followed by three digits. *)
Theorem X17_product_code_shape (rng : Random) :
  exists letters numbers rng',
    _generate_product_code rng
    = (Return (string_of_list_ascii letters ++ string_of_list_ascii numbers), rng')
    /\ List.length letters = 3%nat /\ List.length numbers = 3%nat
    /\ Forall (fun c => In c ascii_uppercase) letters
    /\ Forall (fun c => In c digit_chars) numbers.
Proof.
  destruct (choices_spec ascii_uppercase 3 rng ltac:(discriminate))
    as (letters & rng1 & E1 & L1 & H1).
  destruct (choices_spec digit_chars 3 rng1 ltac:(discriminate))
    as (numbers & rng2 & E2 & L2 & H2).
  exists letters, numbers, rng2. repeat split; auto.
  unfold _generate_product_code.
  unfold bind at 1. rewrite E1. unfold bind at 1. now rewrite E2.
Qed.

(** X18: the e-mail generator never raises; its result is 5 to 10
    lower-case letters, an at sign and one of the four domains, so it has
    exactly one at sign. *)
Theorem X18_email_shape (rng : Random) :
  exists name domain rng',
    _generate_email rng = (Return (string_of_list_ascii name ++ "@" ++ domain), rng')
    /\ (5 <= List.length name <= 10)%nat
    /\ Forall (fun c => In c ascii_lowercase) name
    /\ In domain domains
    /\ count "@" (string_of_list_ascii name ++ "@" ++ domain) = 1%nat.
Proof.
  destruct (randint_in_range 5 10 rng ltac:(lia)) as (k & Ek & Hk).
  destruct (choices_spec ascii_lowercase (Z.to_nat k) (snd (draw rng)) ltac:(discriminate))
    as (name & rng1 & En & Ln & Hn).
  destruct (choice_in domains rng1 ltac:(discriminate)) as (domain & Ed & Hd).
  exists name, domain, (snd (draw rng1)).
  split; [|split; [lia|split; [exact Hn|split; [exact Hd|]]]].
  - unfold _generate_email.
    unfold bind at 1. rewrite Ek. unfold bind at 1. rewrite En.
    unfold bind at 1. now rewrite Ed.
  - rewrite count_append. rewrite count_absent.
    + cbn [append count]. rewrite Ascii.eqb_refl.
      assert (Hdom : forallb (fun d => (count "@" d =? 0)%nat) domains = true)
        by reflexivity.
      rewrite forallb_forall in Hdom. specialize (Hdom domain Hd).
      apply Nat.eqb_eq in Hdom. now rewrite Hdom.
    + eapply Forall_impl; [|exact Hn]. intros c Hc ->.
      cbn in Hc. repeat (destruct Hc as [Hc|Hc]; [discriminate Hc|]). exact Hc.
Qed.

(** X19: the text generator raises the empty-range error of randint when
    the maximum length is below 5, before drawing anything; otherwise it
    returns between 5 and [max_length] characters, each a letter or a
    space. *)
Theorem X19_text_length (max_length : Z) (rng : Random) :
  (max_length < 5 -> _generate_text max_length rng = (Raise EmptyRange, rng))
  /\ (5 <= max_length ->
      exists text rng',
        _generate_text max_length rng = (Return (string_of_list_ascii text), rng')
        /\ 5 <= Z.of_nat (List.length text) <= max_length
        /\ Forall (fun c => In c letters_and_space) text).
Proof.
  split; intros H.
  - unfold _generate_text, bind. now rewrite randint_empty.
  - destruct (randint_in_range 5 max_length rng H) as (k & Ek & Hk).
    destruct (choices_spec letters_and_space (Z.to_nat k) (snd (draw rng))
                           ltac:(discriminate)) as (text & rng1 & Et & Lt & Ht).
    exists text, rng1. split; [|split; [lia|exact Ht]].
    unfold _generate_text. unfold bind at 1. rewrite Ek.
    unfold bind at 1. now rewrite Et.
Qed.

Lemma X19_text_witness :
  _generate_text 4 (constant 0) = (Raise EmptyRange, constant 0)
  /\ exists text rng',
      _generate_text 20 (constant 0) = (Return (string_of_list_ascii text), rng')
      /\ 5 <= Z.of_nat (List.length text) <= 20.
Proof.
  split.
  - exact (proj1 (X19_text_length 4 (constant 0)) ltac:(lia)).
  - destruct (proj2 (X19_text_length 20 (constant 0)) ltac:(lia))
      as (text & rng' & E & Hl & _).
    now exists text, rng'.
Defined.

(** X20: the name generator never raises; its result is a first name, a
    space and a last name, or a last name, a comma with a space and a first
    name between double quotes; the names come from the two lists. *)
Theorem X20_name_forms (rng : Random) :
  exists first_name last_name rng',
    In first_name first_names /\ In last_name last_names
    /\ (_generate_name rng = (Return (first_name ++ " " ++ last_name), rng')
        \/ _generate_name rng
           = (Return (dquote ++ last_name ++ ", " ++ first_name ++ dquote), rng')).
Proof.
  set (rng1 := snd (draw rng)).
  assert (E0 : random_53 rng = (Return (rng O mod 2 ^ 53), rng1)) by reflexivity.
  destruct (below_0_3 (rng O mod 2 ^ 53)) eqn:B.
  - destruct (choice_in last_names rng1 ltac:(discriminate)) as (l & El & Hl).
    destruct (choice_in first_names (snd (draw rng1)) ltac:(discriminate))
      as (f & Ef & Hf).
    exists f, l, (snd (draw (snd (draw rng1)))). split; [exact Hf|split; [exact Hl|]].
    right. unfold _generate_name, bind. rewrite E0. cbv beta iota.
    rewrite B, El. cbv beta iota. now rewrite Ef.
  - destruct (choice_in first_names rng1 ltac:(discriminate)) as (f & Ef & Hf).
    destruct (choice_in last_names (snd (draw rng1)) ltac:(discriminate))
      as (l & El & Hl).
    exists f, l, (snd (draw (snd (draw rng1)))). split; [exact Hf|split; [exact Hl|]].
    left. unfold _generate_name, bind. rewrite E0. cbv beta iota.
    rewrite B, Ef. cbv beta iota. now rewrite El.
Qed.

(** ** Records and the file *)


Lemma call_all_never_raises (generators : list (Gen string)) :
  Forall never_raises generators -> never_raises (call_all generators).
Proof.
  induction 1 as [|g gs Hg _ IH]; cbn [call_all]; [apply never_raises_ret|].
  apply never_raises_bind; [exact Hg|]. intros field.
  apply never_raises_bind; [exact IH|]. intros fields. apply never_raises_ret.
Qed.

Lemma never_raises_choices {A} (population : list A) (k : nat) :
  population <> [] -> never_raises (choices population k).
Proof.
  intros H rng. destruct (choices_spec population k rng H) as (xs & rng' & E & _). eauto.
Qed.

Lemma generate_name_never_raises (rng : Random) :
  exists s rng', _generate_name rng = (Return s, rng').
Proof.
  apply never_raises_bind.
  - intros r. unfold random_53. cbn. eauto.
  - intros j. destruct (below_0_3 j).
    + apply never_raises_bind; [apply never_raises_choice; discriminate|]. intros l.
      apply never_raises_bind; [apply never_raises_choice; discriminate|]. intros f.
      apply never_raises_ret.
    + apply never_raises_bind; [apply never_raises_choice; discriminate|]. intros f.
      apply never_raises_bind; [apply never_raises_choice; discriminate|]. intros l.
      apply never_raises_ret.
Qed.

Lemma generator_for_never_raises (pattern : string) :
  never_raises (generator_for pattern).
Proof.
  unfold generator_for.
  destruct (search_anchored name_class pattern).
  { intros rng. destruct (generate_name_never_raises rng) as (s & rng' & E). eauto. }
  destruct (search_anchored integer_class pattern).
  { apply never_raises_bind; [apply never_raises_randint; lia|].
    intros n. apply never_raises_ret. }
  destruct (contains "@" pattern).
  { apply never_raises_bind; [apply never_raises_randint; lia|]. intros k.
    apply never_raises_bind; [apply never_raises_choices; discriminate|]. intros name.
    apply never_raises_bind; [apply never_raises_choice; discriminate|]. intros d.
    apply never_raises_ret. }
  destruct (is_substring price_marker pattern).
  { apply never_raises_bind; [apply never_raises_randint; lia|].
    intros h. apply never_raises_ret. }
  destruct (search_anchored code_class pattern).
  { apply never_raises_bind; [apply never_raises_choices; discriminate|]. intros l.
    apply never_raises_bind; [apply never_raises_choices; discriminate|]. intros n.
    apply never_raises_ret. }
  apply never_raises_bind; [apply never_raises_randint; lia|]. intros k.
  apply never_raises_bind; [apply never_raises_choices; discriminate|]. intros t.
  apply never_raises_ret.
Qed.

Lemma pattern_generators_never_raise (config : Config) :
  Forall never_raises (_create_pattern_generators config).
Proof.
  unfold _create_pattern_generators. apply Forall_forall. intros g Hg.
  apply in_map_iff in Hg as (p & <- & _). apply generator_for_never_raises.
Qed.



(** X22: without a delimiter in the configuration every record generation
    ends with KeyError on 'delimiter', after the fields have been
    generated. *)
Theorem X22_record_without_delimiter (config : Config) (rng : Random) :
  delimiter config = None ->
  exists fields rng',
    call_all (_create_pattern_generators config) rng = (Return fields, rng')
    /\ generate_record config (_create_pattern_generators config) rng
       = (Failed (KeyError "delimiter"), rng').
Proof.
  intros Hd.
  destruct (call_all_never_raises _ (pattern_generators_never_raise config) rng)
    as (fields & rng' & E).
  exists fields, rng'. split; [exact E|].
  unfold generate_record. now rewrite E, Hd.
Qed.

Lemma file_size_app (lines : list string) (record : string) :
  file_size (lines ++ [record]) = file_size lines + (len record + 1).
Proof.
  unfold file_size. induction lines as [|l ls IH]; cbn [app fold_right]; [lia|].
  rewrite IH. lia.
Qed.

(** The loop of [generate_file], when every record generation returns. *)
Lemma write_records_spec (config : Config) (pattern_generators : list (Gen string))
      (target_size_bytes : Z) :
  (forall rng, exists record rng',
      generate_record config pattern_generators rng = (Done record, rng')) ->
  forall fuel current_size lines rng,
    current_size = file_size lines ->
    (Z.to_nat (target_size_bytes - current_size) <= fuel)%nat ->
    exists records rng',
      write_records fuel config pattern_generators target_size_bytes
                    current_size lines rng
      = Some (Done (file_size (lines ++ records)), (lines ++ records)%list, rng')
      /\ target_size_bytes <= file_size (lines ++ records)
      /\ (records = [] \/ file_size (lines ++ removelast records) < target_size_bytes)
      /\ Z.of_nat (List.length records) <= Z.max 0 (target_size_bytes - current_size).
Proof.
  intros Hrec. induction fuel as [|fuel IH]; intros current_size lines rng Hsize Hfuel;
    cbn [write_records]; destruct (current_size <? target_size_bytes) eqn:C;
    try (apply Z.ltb_lt in C; lia).
  - apply Z.ltb_ge in C. exists [], rng. rewrite app_nil_r, <- Hsize.
    repeat split; auto; cbn; lia.
  - apply Z.ltb_lt in C.
    destruct (Hrec rng) as (record & rng1 & E). rewrite E.
    pose proof (len_nonneg record) as Hlen.
    destruct (IH (current_size + (len record + 1)) (lines ++ [record])%list rng1)
      as (records & rng' & Ew & Htarget & Hlast & Hcount).
    { rewrite file_size_app. lia. }
    { lia. }
    rewrite <- app_assoc in Ew, Htarget. cbn [app] in Ew, Htarget.
    exists (record :: records), rng'. split; [exact Ew|split; [exact Htarget|split]].
    + right. destruct Hlast as [->|Hlast].
      * cbn [removelast]. rewrite app_nil_r. lia.
      * destruct records as [|r rs]; [cbn [removelast]; rewrite app_nil_r; lia|].
        rewrite <- app_assoc in Hlast. exact Hlast.
    + cbn [List.length]. lia.
  - apply Z.ltb_ge in C. exists [], rng. rewrite app_nil_r, <- Hsize.
    repeat split; auto; cbn; lia.
Qed.

(** More fuel does not change what the loop of [generate_file] gives. *)
Lemma write_records_mono (config : Config) (pattern_generators : list (Gen string))
      (target_size_bytes : Z) (fuel : nat) :
  forall fuel' current_size lines rng r,
    (fuel <= fuel')%nat ->
    write_records fuel config pattern_generators target_size_bytes
                  current_size lines rng = Some r ->
    write_records fuel' config pattern_generators target_size_bytes
                  current_size lines rng = Some r.
Proof.
  induction fuel as [|fuel IH]; intros fuel' current_size lines rng r Hle;
    destruct fuel' as [|fuel']; cbn [write_records];
    destruct (current_size <? target_size_bytes); auto; try discriminate; try lia.
  destruct (generate_record config pattern_generators rng) as [[record|f] rng1]; auto.
  apply IH. lia.
Qed.

Lemma generate_record_returns (config : Config) (d : string) :
  delimiter config = Some d ->
  forall rng, exists record rng',
    generate_record config (_create_pattern_generators config) rng = (Done record, rng').
Proof.
  intros Hd rng.
  destruct (call_all_never_raises _ (pattern_generators_never_raise config) rng)
    as (fields & rng' & E).
  exists (String.concat d fields), rng'. unfold generate_record. now rewrite E, Hd.
Qed.

(** X23: with has_header and delimiter in the configuration,
    [generate_file] terminates for every target size and returns.  The file
    is the header line (when configured) followed by the records; its
    counted size is the sum over the lines of length plus 1, it is at least
    the target, without its last record it is below the target, and there
    are no more records than bytes that were missing. *)
Theorem X23_file_reaches_target
        (config : Config) (with_header : bool) (d : string)
        (target_size_bytes : Z) (rng : Random) :
  has_header config = Some with_header ->
  delimiter config = Some d ->
  exists records rng',
    generate_file config (_create_pattern_generators config) target_size_bytes rng
    = Some (Done (file_size (header_lines config with_header d ++ records)),
            (header_lines config with_header d ++ records)%list, rng')
    /\ target_size_bytes <= file_size (header_lines config with_header d ++ records)
    /\ (records = []
        \/ file_size (header_lines config with_header d ++ removelast records)
           < target_size_bytes)
    /\ Z.of_nat (List.length records)
       <= Z.max 0 (target_size_bytes - file_size (header_lines config with_header d)).
Proof.
  intros Hh Hd. unfold generate_file. rewrite Hh.
  pose proof (generate_record_returns config d Hd) as Hrec.
  destruct with_header; cbn [header_lines].
  - rewrite Hd. cbv zeta.
    set (header := String.concat d (header_fields config)).
    assert (Hfs : file_size [header] = len header + 1)
      by (unfold file_size; cbn [fold_right]; lia).
    destruct (write_records_spec config _ target_size_bytes Hrec
                (Z.to_nat (target_size_bytes - (len header + 1)))
                (len header + 1) [header] rng (eq_sym Hfs) (Nat.le_refl _))
      as (records & rng' & E & H1 & H2 & H3).
    exists records, rng'. rewrite Hfs. auto.
  - destruct (write_records_spec config _ target_size_bytes Hrec
                (Z.to_nat target_size_bytes) 0 [] rng eq_refl ltac:(lia))
      as (records & rng' & E & H1 & H2 & H3).
    exists records, rng'. change (file_size []) with 0.
    rewrite Z.sub_0_r in *. auto.
Qed.

Lemma generate_record_missing_delimiter (config : Config) (rng : Random) :
  delimiter config = None ->
  exists rng',
    generate_record config (_create_pattern_generators config) rng
    = (Failed (KeyError "delimiter"), rng').
Proof.
  intros Hd.
  destruct (call_all_never_raises _ (pattern_generators_never_raise config) rng)
    as (fields & rng' & E).
  exists rng'. unfold generate_record. now rewrite E, Hd.
Qed.

(** X24: what [generate_file] does on a configuration with a key missing.
    Without has_header it ends with KeyError before anything is written; so
    it does with a header asked for and no delimiter.  Without a header and
    without a delimiter it returns an empty file when the target is at
    most 0, and ends with KeyError on 'delimiter', nothing written, when the
    target is positive. *)
Theorem X24_file_missing_keys
        (config : Config) (target_size_bytes : Z) (rng : Random) :
  (has_header config = None ->
   generate_file config (_create_pattern_generators config) target_size_bytes rng
   = Some (Failed (KeyError "has_header"), [], rng))
  /\ (has_header config = Some true -> delimiter config = None ->
      generate_file config (_create_pattern_generators config) target_size_bytes rng
      = Some (Failed (KeyError "delimiter"), [], rng))
  /\ (has_header config = Some false -> delimiter config = None ->
      (target_size_bytes <= 0 ->
       generate_file config (_create_pattern_generators config) target_size_bytes rng
       = Some (Done 0, [], rng))
      /\ (0 < target_size_bytes ->
          exists rng',
            generate_file config (_create_pattern_generators config) target_size_bytes rng
            = Some (Failed (KeyError "delimiter"), [], rng'))).
Proof.
  unfold generate_file. split; [|split].
  - now intros ->.
  - now intros -> ->.
  - intros Hh Hd. rewrite Hh. split; intros Ht.
    + destruct (Z.to_nat target_size_bytes); cbn [write_records];
        destruct (0 <? target_size_bytes) eqn:C; try reflexivity;
        apply Z.ltb_lt in C; lia.
    + destruct (generate_record_missing_delimiter config rng Hd) as (rng' & E).
      exists rng'.
      destruct (Z.to_nat target_size_bytes) as [|fuel] eqn:F; [lia|].
      cbn [write_records].
      destruct (0 <? target_size_bytes) eqn:C; [|apply Z.ltb_ge in C; lia].
      now rewrite E.
Qed.


Lemma X22_record_witness :
  exists rng',
    generate_record bare_config (_create_pattern_generators bare_config) (constant 0)
    = (Failed (KeyError "delimiter"), rng').
Proof.
  destruct (X22_record_without_delimiter bare_config (constant 0) eq_refl)
    as (fields & rng' & _ & H).
  now exists rng'.
Defined.

Lemma X23_file_witness :
  exists records rng',
    generate_file sample_config (_create_pattern_generators sample_config) 30 (constant 0)
    = Some (Done (file_size (header_lines sample_config true "," ++ records)),
            (header_lines sample_config true "," ++ records)%list, rng')
    /\ 30 <= file_size (header_lines sample_config true "," ++ records).
Proof.
  destruct (X23_file_reaches_target sample_config true "," 30 (constant 0)
                                    eq_refl eq_refl)
    as (records & rng' & E & Ht & _).
  now exists records, rng'.
Defined.

Lemma X24_file_witness :
  generate_file bare_config (_create_pattern_generators bare_config) 100 (constant 0)
  = Some (Failed (KeyError "has_header"), [], constant 0).
Proof.
  exact (proj1 (X24_file_missing_keys bare_config 100 (constant 0)) eq_refl).
Defined.

(** ** Which generator a pattern gets *)

Lemma class_run_needs_class (cls : ascii -> bool) (s : string) :
  class_run cls s false = true ->
  match s with
  | String b _ => cls b
  | EmptyString => false
  end = true.
Proof.
  destruct s as [|b s]; cbn; [discriminate|].
  destruct (cls b); [reflexivity|discriminate].
Qed.

Lemma search_needs_caret_before (cls : ascii -> bool) (s : string) :
  search_anchored cls s = true -> caret_before cls s = true.
Proof.
  induction s as [|a s IH]; cbn; [discriminate|].
  intros H. apply orb_true_iff in H as [H|H]; apply orb_true_iff.
  - left. apply andb_true_iff in H as [Ha Hr]. rewrite Ha.
    now apply class_run_needs_class in Hr.
  - right. auto.
Qed.

Lemma caret_before_mono (cls1 cls2 : ascii -> bool) (s : string) :
  (forall a, cls1 a = true -> cls2 a = true) ->
  caret_before cls1 s = true -> caret_before cls2 s = true.
Proof.
  intros Hcls. induction s as [|a s IH]; cbn; [discriminate|].
  intros H. apply orb_true_iff in H as [H|H]; apply orb_true_iff.
  - left. apply andb_true_iff in H as [Ha Hb]. rewrite Ha.
    destruct s as [|b s]; [discriminate|]. now rewrite (Hcls b Hb).
  - right. auto.
Qed.

Lemma no_caret_before_no_search (cls : ascii -> bool) (s : string) :
  caret_before cls s = false -> search_anchored cls s = false.
Proof.
  intros H. destruct (search_anchored cls s) eqn:E; [|reflexivity].
  apply search_needs_caret_before in E. congruence.
Qed.

(** X25: the three anchored tests look for a literal '^', characters and a
    '$' in the text of the pattern.  A pattern in which no '^' stands right
    before a letter, a digit, an apostrophe, a space, a double quote or a
    comma (as when a bracket or a percent sign follows it) therefore gets
    neither the name, nor the integer, nor the product-code generator: it
    gets the e-mail generator when it has an at sign, else the price
    generator when it has the price marker, else the text generator. *)
Theorem X25_class_patterns_fall_through (pattern : string) :
  caret_before name_class pattern = false ->
  caret_before code_class pattern = false ->
  generator_for pattern
  = if contains "@" pattern then _generate_email
    else if is_substring price_marker pattern then generate_price
         else _generate_text 20.
Proof.
  intros Hname Hcode.
  assert (Hint : caret_before integer_class pattern = false).
  { destruct (caret_before integer_class pattern) eqn:E; [|reflexivity].
    apply (caret_before_mono integer_class code_class) in E; [congruence|].
    intros a Ha. unfold code_class, integer_class in *. rewrite Ha.
    apply orb_true_r. }
  unfold generator_for.
  rewrite (no_caret_before_no_search _ _ Hname),
          (no_caret_before_no_search _ _ Hint),
          (no_caret_before_no_search _ _ Hcode).
  reflexivity.
Qed.

Lemma X25_class_patterns_witness :
  generator_for "^[0-9]+$" = _generate_text 20
  /\ generator_for "^[A-Za-z ]+$" = _generate_text 20.
Proof.
  split.
  - exact (X25_class_patterns_fall_through "^[0-9]+$" eq_refl eq_refl).
  - exact (X25_class_patterns_fall_through "^[A-Za-z ]+$" eq_refl eq_refl).
Defined.

Lemma class_run_word (cls : ascii -> bool) (w post : string) :
  cls "$"%char = false -> all_in_class cls w = true ->
  forall seen, (seen = true \/ w <> EmptyString) ->
               class_run cls (w ++ String "$" post) seen = true.
Proof.
  intros Hd. induction w as [|a w IH]; cbn [all_in_class append class_run];
    intros Hall seen Hseen.
  - rewrite Hd. destruct Hseen as [->|H]; [reflexivity|congruence].
  - apply andb_true_iff in Hall as [Ha Hw]. rewrite Ha. apply IH; auto.
Qed.

Lemma search_anchored_found (cls : ascii -> bool) (pre w post : string) :
  cls "$"%char = false -> all_in_class cls w = true -> w <> EmptyString ->
  search_anchored cls (pre ++ String "^" (w ++ String "$" post)) = true.
Proof.
  intros Hd Hall Hne. induction pre as [|a pre IH]; cbn [append search_anchored].
  - rewrite Ascii.eqb_refl, class_run_word; auto.
  - rewrite IH. apply orb_true_r.
Qed.

(** X26: a pattern that contains, anywhere, a '^', then one or more
    letters, apostrophes, spaces, double quotes or commas, then a '$', gets
    the name generator, whatever else it contains: the name test comes
    first. *)
Theorem X26_literal_word_gets_name (pre w post : string) :
  all_in_class name_class w = true -> w <> EmptyString ->
  generator_for (pre ++ "^" ++ w ++ "$" ++ post) = _generate_name.
Proof.
  intros Hall Hne. unfold generator_for. cbn [append].
  now rewrite search_anchored_found.
Qed.

Lemma X26_literal_word_witness :
  generator_for ("user@" ++ "^" ++ "name" ++ "$" ++ "") = _generate_name.
Proof.
  refine (X26_literal_word_gets_name "user@" "name" "" eq_refl _). discriminate.
Defined.

